(** * Recruiters scoring: a shallow embedding of [recruiters-scoring.js]

    The script reads the review events of one rolling window from the
    [CandidateSubmission] collection, aggregates them per job and per
    (recruiter, job), folds the per-job deltas of every recruiter into a number
    of points, turns points and volume into a score and moves the recruiter's
    [maxSlots] by that score.

    The embedding follows the source function by function:
    - [retrieveRecruitersSubmissions]: the aggregation pipeline, stage by stage,
      over a list of documents;
    - [computeAndSaveScore]: the score and the read-modify-write of one
      [Preference] document;
    - [computeRecruitersScore]: the [do ... while] loop over the cursor, in a
      state-and-exception monad.

    JavaScript numbers are kept behind the interface [Number]: the program is
    written once, and read either on IEEE binary64 (what the script runs on;
    every concrete run below is evaluated there) or on the real numbers (the
    exact arithmetic in which the algebraic properties are stated). *)

From Stdlib Require Import ZArith Reals Lra Lia Sorted OrderedTypeEx.
From Stdlib Require Floats.
From stdpp Require Import gmap strings list.

Local Open Scope Z_scope.

(** ** JavaScript numbers *)

(** The operations of [recruiters-scoring.js] on numbers: the literals, the
    arithmetic operators, the comparison [>], and the four [Math] functions
    called by the script. [Math_pow2 x] is [Math.pow(x, 2)]. *)
Class Number (num : Type) := {
  ofZ : Z → num;
  nadd : num → num → num;
  nsub : num → num → num;
  nmul : num → num → num;
  ndiv : num → num → num;
  nneg : num → num;
  ngt : num → num → bool;
  Math_sqrt : num → num;
  Math_pow2 : num → num;
  Math_round : num → num;
  Math_max : num → num → num
}.

(** *** Exact real arithmetic *)

(** [Math.round] rounds to the nearest integer, a tie going up. *)
Definition Rround (x : R) : R := IZR (Zfloor (x + / 2)).

Definition Rgtb (x y : R) : bool := if Rlt_dec y x then true else false.

#[export] Instance RNumber : Number R := {|
  ofZ := IZR;
  nadd := Rplus;
  nsub := Rminus;
  nmul := Rmult;
  ndiv := Rdiv;
  nneg := Ropp;
  ngt := Rgtb;
  Math_sqrt := R_sqrt.sqrt;
  Math_pow2 := fun x => Rmult x x;
  Math_round := Rround;
  Math_max := Rmax
|}.

(** *** IEEE 754 binary64 *)

Module Binary64.

Import Floats.

(** An integer literal or an integer count of the aggregation, as a double
    (exact below 2^53). *)
Definition of_Z (z : Z) : float :=
  let a := PrimFloat.of_uint63 (Uint63.of_Z (Z.abs z)) in
  if z <? 0 then PrimFloat.opp a else a.

(** [Math.round]: NaN, the infinities and the zeros are returned as they are,
    and so is a double with a non-negative exponent, which is an integer. For
    [x = v / d] the result is [floor (x + 1/2)], computed on integers; a
    negative [x] that rounds to zero gives [-0]. *)
Definition round (x : float) : float :=
  match FloatOps.Prim2SF x with
  | SpecFloat.S754_finite s m e =>
      if 0 <=? e then x
      else
        let d := 2 ^ (- e) in
        let v := if s then Z.neg m else Z.pos m in
        let n := (2 * v + d) / (2 * d) in
        let a := PrimFloat.of_uint63 (Uint63.of_Z (Z.abs n)) in
        if (n <? 0) || ((n =? 0) && s) then PrimFloat.opp a else a
  | _ => x
  end.

(** [Math.max(x, y)]: NaN when either argument is NaN. *)
Definition max (x y : float) : float :=
  if PrimFloat.is_nan x || PrimFloat.is_nan y then PrimFloat.nan
  else if PrimFloat.ltb x y then y else x.

#[export] Instance FloatNumber : Number float := {|
  ofZ := of_Z;
  nadd := PrimFloat.add;
  nsub := PrimFloat.sub;
  nmul := PrimFloat.mul;
  ndiv := PrimFloat.div;
  nneg := PrimFloat.opp;
  ngt := fun x y => PrimFloat.ltb y x;
  Math_sqrt := PrimFloat.sqrt;
  Math_pow2 := fun x => PrimFloat.mul x x;
  Math_round := round;
  Math_max := max
|}.

End Binary64.

Export (hints) Binary64.

(** ** The constants of the script *)

Definition GROWTH_FACTOR : Z := 10.
Definition DIMINISHING_FACTOR : Z := 2.

(** ** The score of one recruiter *)

Section Score.

Context {num : Type} `{Number num}.

(** Lines 112-120 of [computeAndSaveScore]: the local [score]. *)
Definition score (totalSubmissions points : num) : num :=
  Math_round
    (if ngt points (ofZ 0)
     then ndiv (nmul (ofZ GROWTH_FACTOR) points) (Math_sqrt totalSubmissions)
     else ndiv (nmul (nneg (ofZ DIMINISHING_FACTOR)) (Math_pow2 points))
               totalSubmissions).

End Score.

(** ** The documents *)

(** One entry of a submission's [history]: its [status] and the time [at] it
    was recorded, in milliseconds. *)
Record HistoryEntry := {
  status : string;
  at_time : Z
}.

(** A [CandidateSubmission], with the fields the aggregation reads. The ids are
    strings, as the documentation of [computeAndSaveScore] has them.
    [review_pass] is the field [review.pass] when it holds a boolean;
    [review_inevitable] is [None] when the document has no field
    [review.inevitable], and [Some b] when the field is there with value [b]. *)
Record Submission := {
  job : string;
  recruiter : string;
  review_pass : option bool;
  review_inevitable : option bool;
  history : list HistoryEntry
}.

(** A document after the two [$project] stages: [pass] is 1 or 0 and
    [first_history] is element 0 of the filtered history. *)
Record Projected := {
  p_job : string;
  p_recruiter : string;
  p_pass : Z;
  first_history : option HistoryEntry
}.

(** A document of the [$group] stage. Its [_id] always has a [job], and a
    [recruiter] unless the aggregation is the global one. *)
Record Grouped := {
  id_job : string;
  id_recruiter : option string;
  total : Z;
  pass : Z
}.

(** ** retrieveRecruitersSubmissions *)

Section Aggregation.

(** The window [from, to): [now] minus [WINDOW_WEEKS] weeks, and [now]. *)
Variables from to : Z.

Definition is_reviewed (h : HistoryEntry) : bool :=
  String.eqb (status h) "ExpertReviewed".

(** The first [$match]. A condition on a field of the array [history] holds
    when some element satisfies it, and the two bounds on [history.at] may be
    met by different elements: this stage over-approximates. *)
Definition coarse_match (s : Submission) : bool :=
  existsb is_reviewed (history s)
  && (existsb (fun h => from <=? at_time h) (history s)
      && existsb (fun h => at_time h <? to) (history s))
  && match review_inevitable s with None => true | Some _ => false end.

(** The condition of the [$filter] that builds [historyArr]. *)
Definition in_window (h : HistoryEntry) : bool :=
  is_reviewed h && (from <=? at_time h) && (at_time h <? to).

Definition historyArr (s : Submission) : list HistoryEntry :=
  List.filter in_window (history s).

(** The second [$match]: [historyArr] is not of size 0. *)
Definition has_window_entry (s : Submission) : bool :=
  match historyArr s with [] => false | _ :: _ => true end.

(** The last [$project]. *)
Definition project (s : Submission) : Projected :=
  {| p_job := job s;
     p_recruiter := recruiter s;
     p_pass := match review_pass s with Some true => 1 | _ => 0 end;
     first_history := head (historyArr s) |}.

(** The four stages that both aggregations share. *)
Definition filtered (subs : list Submission) : list Projected :=
  map project (List.filter has_window_entry (List.filter coarse_match subs)).

(** [$group]: a document joins the group of its key, or opens a new group
    after the ones there are. *)
Fixpoint group_add (j : string) (r : option string) (p : Z)
    (groups : list Grouped) : list Grouped :=
  match groups with
  | [] => [ {| id_job := j; id_recruiter := r; total := 1; pass := p |} ]
  | g :: rest =>
      if decide (id_job g = j ∧ id_recruiter g = r)
      then {| id_job := j; id_recruiter := r;
              total := total g + 1; pass := pass g + p |} :: rest
      else g :: group_add j r p rest
  end.

Definition group_stage (global : bool) (docs : list Projected) : list Grouped :=
  fold_left
    (fun groups d =>
       group_add (p_job d) (if global then None else Some (p_recruiter d))
                 (p_pass d) groups)
    docs [].

(** [$sort] on [_id.recruiter], ascending: a stable insertion sort. Strings
    are compared code by code, and a missing field sorts first. *)
Definition id_leb (a b : option string) : bool :=
  match a, b with
  | None, _ => true
  | Some _, None => false
  | Some x, Some y => String.leb x y
  end.

Definition recruiter_leb (a b : Grouped) : bool :=
  id_leb (id_recruiter a) (id_recruiter b).

Fixpoint sort_insert (g : Grouped) (l : list Grouped) : list Grouped :=
  match l with
  | [] => [g]
  | h :: t => if recruiter_leb g h then g :: h :: t else h :: sort_insert g t
  end.

Definition sort_stage (l : list Grouped) : list Grouped :=
  fold_right sort_insert [] l.

Definition retrieveRecruitersSubmissions (global : bool)
    (subs : list Submission) : list Grouped :=
  if global then group_stage true (filtered subs)
  else sort_stage (group_stage false (filtered subs)).

End Aggregation.

(** ** Completions, the world and the monad *)

Inductive Exception :=
| TypeError (message : string)   (* a property read on [undefined] *)
| StoreError.                    (* a rejection of the [Preference] store *)

Inductive Completion (A : Type) :=
| Normal (a : A)
| Throw (e : Exception).

Arguments Normal {A} a.
Arguments Throw {A} e.

(** One call of [computeAndSaveScore], with its three arguments: the record of
    a flush of the loop. *)
Record Call (num : Type) := {
  call_recruiter : option string;
  call_totalSubmissions : num;
  call_points : num
}.

Arguments call_recruiter {num} _.
Arguments call_totalSubmissions {num} _.
Arguments call_points {num} _.

(** What the script acts on: the [Preference] collection, reduced to the
    [recruiter.maxSlots] of each user by [_id], and the calls of
    [computeAndSaveScore] made so far, oldest first. *)
Record World (num : Type) := {
  maxSlots : gmap string num;
  calls : list (Call num)
}.

Arguments maxSlots {num} _.
Arguments calls {num} _.

Definition M (num A : Type) : Type := World num → World num * Completion A.

#[export] Instance M_ret {num} : MRet (M num) :=
  fun A a w => (w, Normal a).

#[export] Instance M_bind {num} : MBind (M num) :=
  fun A B f m w =>
    match m w with
    | (w', Normal a) => f a w'
    | (w', Throw e) => (w', Throw e)
    end.

Definition throw {num A} (e : Exception) : M num A :=
  fun w => (w, Throw e).

(** [p.catch(function (err) { console.error(err); })]: a rejection becomes the
    value [undefined]. *)
Definition catch_undefined {num A} (m : M num (option A)) : M num (option A) :=
  fun w =>
    match m w with
    | (w', Throw _) => (w', Normal None)
    | r => r
    end.

(** The truth value JavaScript gives to an identifier variable: [undefined]
    and the empty string are false. *)
Definition truthy (v : option string) : bool :=
  match v with
  | Some s => negb (String.eqb s "")
  | None => false
  end.

(** [x || 0] for a counter read from an object: 0 when the property is
    missing, and when it is 0. *)
Definition or_zero (v : option Z) : Z :=
  match v with
  | Some n => if n =? 0 then 0 else n
  | None => 0
  end.

(** The entry of [subsPerJobs] for one job. *)
Record JobStat (num : Type) := {
  job_total : Z;
  job_pass : Z;
  approvalRatio : num
}.

Arguments job_total {num} _.
Arguments job_pass {num} _.
Arguments approvalRatio {num} _.

(** The variables of the loop of [computeRecruitersScore]. *)
Record LoopState (num : Type) := {
  lastRecruiter : option string;
  totalSubmissions : num;
  points : num;
  results : gmap string Z
}.

Arguments lastRecruiter {num} _.
Arguments totalSubmissions {num} _.
Arguments points {num} _.
Arguments results {num} _.

Section Run.

Context {num : Type} `{Number num}.

(** What [user.save()] resolves with for the document of each user: an
    object of counters, or [None] when the save rejects. The [Preference]
    model is not part of the script. *)
Variable saveResult : string → option (gmap string Z).

(** *** computeAndSaveScore *)

Definition record_call (c : Call num) : M num unit :=
  fun w => ({| maxSlots := maxSlots w; calls := calls w ++ [c] |}, Normal tt).

(** [Preference.findOne({_id: recruiterId})]: the user's id and
    [recruiter.maxSlots], or [None] for [null]. The read itself is taken to
    resolve; a rejection would be caught like one of the save. *)
Definition findOne (recruiterId : option string) : M num (option (string * num)) :=
  fun w =>
    (w, Normal (id ← recruiterId; m ← maxSlots w !! id; Some (id, m))).

(** [user.save()] after [user.recruiter.maxSlots] was set to [m]. *)
Definition save (id : string) (m : num) : M num (gmap string Z) :=
  fun w =>
    match saveResult id with
    | Some outcome =>
        ({| maxSlots := <[id := m]> (maxSlots w); calls := calls w |},
         Normal outcome)
    | None => (w, Throw StoreError)
    end.

Definition computeAndSaveScore (recruiterId : option string)
    (totalSubmissions points : num) : M num (option (gmap string Z)) :=
  record_call {| call_recruiter := recruiterId;
                 call_totalSubmissions := totalSubmissions;
                 call_points := points |} ;;
  let score := score totalSubmissions points in
  catch_undefined
    (user ← findOne recruiterId;
     match user with
     | Some (id, current) =>
         outcome ← save id (Math_max (ofZ 1) (nadd current score));
         mret (Some outcome)
     | None => mret None
     end).

(** *** computeRecruitersScore *)

(** The [reduce] that builds [subsPerJobs]. *)
Definition subsPerJobs_of (aggregateSubsPerJobs : list Grouped)
    : gmap string (JobStat num) :=
  fold_left
    (fun result subs =>
       <[id_job subs := {| job_total := total subs;
                           job_pass := pass subs;
                           approvalRatio :=
                             ndiv (ofZ (pass subs)) (ofZ (total subs)) |}]> result)
    aggregateSubsPerJobs ∅.

(** Line 194: the delta of one (recruiter, job) document. *)
Definition delta (baseline : JobStat num) (recJobSubs : Grouped) : num :=
  nsub (ofZ (pass recJobSubs))
       (nmul (ofZ (total recJobSubs)) (approvalRatio baseline)).

(** Lines 181-187: the object assigned to [results] after a flush. *)
Definition merge_results (results recruiterScoreUpdates : gmap string Z)
    : gmap string Z :=
  <["inserted" := or_zero (results !! "insertedCount")
                  + or_zero (recruiterScoreUpdates !! "insertedCount")]>
  (<["matchedCount" := or_zero (results !! "matchedCount")
                       + or_zero (recruiterScoreUpdates !! "matchedCount")]>
  (<["modified" := or_zero (results !! "modifiedCount")
                   + or_zero (recruiterScoreUpdates !! "modifiedCount")]>
  (<["deleted" := or_zero (results !! "deletedCount")
                  + or_zero (recruiterScoreUpdates !! "deletedCount")]>
  (<["upserted" := or_zero (results !! "upsertedCount")
                   + or_zero (recruiterScoreUpdates !! "upsertedCount")]> ∅)))).

(** One turn of the [do ... while] loop, lines 169-197; [recJobSubs] is
    [None] when the cursor is exhausted. *)
Definition iteration (subsPerJobs : gmap string (JobStat num))
    (recJobSubs : option Grouped) (st : LoopState num) : M num (LoopState num) :=
  let recruiter := recJobSubs ≫= id_recruiter in
  let last := if truthy (lastRecruiter st) then lastRecruiter st else recruiter in
  st ← (if decide (last ≠ recruiter) then
          recruiterScoreUpdates ←
            computeAndSaveScore last (totalSubmissions st) (points st);
          match recruiterScoreUpdates with
          | None =>
              throw (TypeError "Cannot read property 'insertedCount' of undefined")
          | Some updates =>
              mret {| lastRecruiter := recruiter;
                      totalSubmissions := ofZ 0;
                      points := ofZ 0;
                      results := merge_results (results st) updates |}
          end
        else
          mret {| lastRecruiter := last;
                  totalSubmissions := totalSubmissions st;
                  points := points st;
                  results := results st |});
  match recJobSubs with
  | Some r =>
      match subsPerJobs !! id_job r with
      | None =>
          throw (TypeError "Cannot read property 'approvalRatio' of undefined")
      | Some baseline =>
          mret {| lastRecruiter := lastRecruiter st;
                  totalSubmissions := nadd (totalSubmissions st) (ofZ (total r));
                  points := nadd (points st) (delta baseline r);
                  results := results st |}
      end
  | None => mret st
  end.

(** The loop: one turn per document of the cursor, and a last turn on [null],
    after which [results] is returned. *)
Fixpoint loop (subsPerJobs : gmap string (JobStat num))
    (cursorRecruiters : list Grouped) (st : LoopState num) : M num (gmap string Z) :=
  match cursorRecruiters with
  | [] => st ← iteration subsPerJobs None st; mret (results st)
  | recJobSubs :: rest =>
      st ← iteration subsPerJobs (Some recJobSubs) st;
      loop subsPerJobs rest st
  end.

Definition initial : LoopState num :=
  {| lastRecruiter := None;
     totalSubmissions := ofZ 0;
     points := ofZ 0;
     results := ∅ |}.

Definition computeRecruitersScore (from to : Z) (subs : list Submission)
    : M num (gmap string Z) :=
  let aggregateSubsPerJobs := retrieveRecruitersSubmissions from to true subs in
  let subsPerJobs := subsPerJobs_of aggregateSubsPerJobs in
  let cursorRecruiters := retrieveRecruitersSubmissions from to false subs in
  loop subsPerJobs cursorRecruiters initial.

End Run.

(** * Specification *)

(** ** Sums *)

Definition sumZ (l : list Z) : Z := fold_right Z.add 0 l.

(** The sum of a field over the grouped documents of one job. *)
Definition over_job (field : Grouped → Z) (j : string) (groups : list Grouped) : Z :=
  sumZ (map field (filter (fun g => id_job g = j) groups)).

(** The same sums, read on the documents before the [$group]. *)
Definition docs_total (j : string) (docs : list Projected) : Z :=
  sumZ (map (fun d => if decide (p_job d = j) then 1 else 0) docs).

Definition docs_pass (j : string) (docs : list Projected) : Z :=
  sumZ (map (fun d => if decide (p_job d = j) then p_pass d else 0) docs).

(** A sum of numbers as the script accumulates one: from 0, left to right. *)
Definition nsum {num : Type} `{Number num} (l : list num) : num :=
  fold_left nadd l (ofZ 0).

(** ** The score, in the words of the specification *)

(** Section 4.6: growth on positive net points, a quadratic penalty otherwise. *)
Definition spec_rawScore (totalSubmissions netPoints : R) : R :=
  if Rlt_dec 0 netPoints
  then (10 * netPoints / R_sqrt.sqrt totalSubmissions)%R
  else (- 2 * netPoints ^ 2 / totalSubmissions)%R.

(** The same raw score on doubles: every operation is the one of IEEE
    binary64, as the script evaluates it. *)
Definition spec_rawScore64 (totalSubmissions netPoints : PrimFloat.float)
  : PrimFloat.float :=
  if PrimFloat.ltb (ofZ 0) netPoints
  then PrimFloat.div (PrimFloat.mul (ofZ 10) netPoints)
         (PrimFloat.sqrt totalSubmissions)
  else PrimFloat.div (PrimFloat.mul (ofZ (-2)) (PrimFloat.mul netPoints netPoints))
         totalSubmissions.

(** ** The real number of a double *)

(** A finite double [(s, m, e)] stands for [± m * 2^e]; a zero stands for 0. *)
Definition SF2R (x : SpecFloat.spec_float) : R :=
  match x with
  | SpecFloat.S754_finite s m e =>
      let v := if s then Z.neg m else Z.pos m in
      if 0 <=? e then IZR (v * 2 ^ e) else (IZR v / IZR (2 ^ (- e)))%R
  | _ => 0%R
  end.

Definition value64 (x : PrimFloat.float) : R := SF2R (FloatOps.Prim2SF x).

(** Neither NaN nor an infinity. *)
Definition finite64 (x : PrimFloat.float) : bool :=
  match FloatOps.Prim2SF x with
  | SpecFloat.S754_zero _ | SpecFloat.S754_finite _ _ _ => true
  | _ => false
  end.

(** The three doubles that are not finite. *)
Definition not_finite64 (x : PrimFloat.float) : Prop :=
  x = PrimFloat.nan ∨ x = PrimFloat.infinity ∨ x = PrimFloat.neg_infinity.

(** ** The streaming fold, in the words of the specification *)

Section FoldSpec.

Context {num : Type} `{Number num}.
Variable saveResult : string → option (gmap string Z).
Variable subsPerJobs : gmap string (JobStat num).

(** The delta of a document against the baseline of its job. *)
Definition delta_in (r : Grouped) : num :=
  match subsPerJobs !! id_job r with
  | Some baseline => delta baseline r
  | None => ofZ 0
  end.

Definition call_of (a : option string) (T P : num) : Call num :=
  {| call_recruiter := a; call_totalSubmissions := T; call_points := P |}.

(** Section 4.5: accumulate while the agent stays the same, flush when it
    changes, and flush once more at the end of the stream. *)
Fixpoint fold_flushes (a : option string) (T P : num) (l : list Grouped)
    : list (Call num) :=
  match l with
  | [] => [call_of a T P]
  | r :: t =>
      if decide (id_recruiter r = a)
      then fold_flushes a (nadd T (ofZ (total r))) (nadd P (delta_in r)) t
      else call_of a T P
           :: fold_flushes (id_recruiter r) (nadd (ofZ 0) (ofZ (total r)))
                (nadd (ofZ 0) (delta_in r)) t
  end.

Definition flushes (l : list Grouped) : list (Call num) :=
  match l with
  | [] => []
  | r :: t =>
      fold_flushes (id_recruiter r) (nadd (ofZ 0) (ofZ (total r)))
        (nadd (ofZ 0) (delta_in r)) t
  end.

(** What the documents of recruiter [a] add to the two accumulators. *)
Definition total_of (a : option string) (l : list Grouped) (T : num) : num :=
  fold_left (fun acc r => nadd acc (ofZ (total r)))
    (filter (fun r => id_recruiter r = a) l) T.

Definition points_of (a : option string) (l : list Grouped) (P : num) : num :=
  fold_left (fun acc r => nadd acc (delta_in r))
    (filter (fun r => id_recruiter r = a) l) P.

(** The flush of recruiter [a] over the whole stream [l]. *)
Definition call_for (l : list Grouped) (a : option string) : Call num :=
  call_of a (total_of a l (ofZ 0)) (points_of a l (ofZ 0)).

(** The write outcomes of a list of calls. *)
Definition outcomes (cs : list (Call num)) : list (gmap string Z) :=
  omap (fun c => call_recruiter c ≫= saveResult) cs.

(** The call finds its user, and the save of that user resolves. *)
Definition resolves (w : World num) (c : Call num) : Prop :=
  ∃ x, call_recruiter c = Some x
       ∧ is_Some (maxSlots w !! x) ∧ is_Some (saveResult x).

(** A document of the stream whose recruiter is a non-empty id and whose job
    has a baseline. *)
Definition well_formed (r : Grouped) : Prop :=
  truthy (id_recruiter r) = true ∧ is_Some (subsPerJobs !! id_job r).

End FoldSpec.

(** The ids of a list, each at its first occurrence. *)
Fixpoint distinct (l : list (option string)) : list (option string) :=
  match l with
  | [] => []
  | x :: t => x :: filter (fun y => y ≠ x) (distinct t)
  end.

(** Sorted ascending by recruiter: every document is below all later ones. *)
Definition sorted_by_recruiter (l : list Grouped) : Prop :=
  StronglySorted (fun a b => recruiter_leb a b = true) l.

(** ** The summary the loop returns *)

Definition counter (key : string) (outcome : gmap string Z) : Z :=
  or_zero (outcome !! key).

(** After at least one flush: [matchedCount] is summed over the outcomes, the
    four other counters are read from the last outcome. *)
Definition returned_results (outs : list (gmap string Z)) : gmap string Z :=
  match last outs with
  | None => ∅
  | Some o =>
      <["inserted" := counter "insertedCount" o]>
      (<["matchedCount" := sumZ (map (counter "matchedCount") outs)]>
      (<["modified" := counter "modifiedCount" o]>
      (<["deleted" := counter "deletedCount" o]>
      (<["upserted" := counter "upsertedCount" o]> ∅))))
  end.

(** ** Sample data *)

Module Sample.

Import Floats.

Definition reviewed (t : Z) : HistoryEntry :=
  {| status := "ExpertReviewed"; at_time := t |}.

(** A submission reviewed at time 5, inside the window [0, 10). *)
Definition submission (j r : string) (p : bool) : Submission :=
  {| job := j; recruiter := r; review_pass := Some p;
     review_inevitable := None; history := [reviewed 5] |}.

(** The same, with [review.inevitable] present and false. *)
Definition not_inevitable (j r : string) (p : bool) : Submission :=
  {| job := j; recruiter := r; review_pass := Some p;
     review_inevitable := Some false; history := [reviewed 5] |}.

(** Three recruiters on one job. *)
Definition three_agents : list Submission :=
  [submission "j" "a" true; submission "j" "b" false; submission "j" "c" true].

(** Scenario D: two recruiters with 8 and 2 passes out of 10 each. *)
Definition scenario_D : list Submission :=
  replicate 8 (submission "j" "a" true) ++ replicate 2 (submission "j" "a" false)
  ++ replicate 2 (submission "j" "b" true) ++ replicate 8 (submission "j" "b" false).

(** A save that resolves with the counters of an update of one document. *)
Definition updated_one : gmap string Z :=
  <["matchedCount" := 1]> (<["modifiedCount" := 1]> ∅).

Definition save_ok (id : string) : option (gmap string Z) := Some updated_one.

(** A save that rejects for recruiter ["b"]. *)
Definition save_fails_b (id : string) : option (gmap string Z) :=
  if String.eqb id "b" then None else Some updated_one.

Definition budgets_abc : World float :=
  {| maxSlots := <["a" := 5%float]> (<["b" := 5%float]> (<["c" := 5%float]> ∅));
     calls := [] |}.

(** No [Preference] document for recruiter ["b"]. *)
Definition budgets_ac : World float :=
  {| maxSlots := <["a" := 5%float]> (<["c" := 5%float]> ∅);
     calls := [] |}.

Definition budgets_R : World R :=
  {| maxSlots := <["a" := 1%R]> ∅; calls := [] |}.

Definition half : JobStat R :=
  {| job_total := 20; job_pass := 10; approvalRatio := (IZR 10 / IZR 20)%R |}.

End Sample.

(** ** The filter and the groups, in plain words *)

(** A submission is counted when its review has no field [inevitable] and some
    entry of its history is an expert review inside the window. *)
Definition counted (from to : Z) (s : Submission) : bool :=
  match review_inevitable s with
  | None => existsb (in_window from to) (history s)
  | Some _ => false
  end.

(** The [_id] of a grouped document. *)
Definition group_key (g : Grouped) : string * option string :=
  (id_job g, id_recruiter g).

(** A sum of reals. *)
Definition Rsum (l : list R) : R := fold_right Rplus 0%R l.

(** * Properties *)

(** ** The score on the real numbers *)

Section ScoreOnReals.

Local Open Scope R_scope.

Lemma Rround_nearest x :
  ∃ z : Z, Rround x = IZR z ∧ x - / 2 < IZR z <= x + / 2.
Proof.
  exists (Zfloor (x + / 2)). split; [reflexivity|].
  pose proof (Zfloor_bound (x + / 2)). lra.
Qed.

Lemma Rround_le x y : x <= y → Rround x <= Rround y.
Proof.
  intros Hxy. unfold Rround. apply IZR_le, Zfloor_le. lra.
Qed.

Lemma Rround_integer (z : Z) : Rround (IZR z) = IZR z.
Proof.
  unfold Rround. f_equal. apply Zfloor_eq. lra.
Qed.

(** The code computes the raw score of the specification, and rounds it. *)
Lemma score_R_unfold ts p : score (num := R) ts p = Rround (spec_rawScore ts p).
Proof.
  unfold score, spec_rawScore. cbn. unfold Rgtb.
  destruct (Rlt_dec 0 p); f_equal; unfold GROWTH_FACTOR, DIMINISHING_FACTOR; lra.
Qed.


Lemma spec_rawScore_16_4 : spec_rawScore 16 4 = 10.
Proof.
  unfold spec_rawScore. destruct (Rlt_dec 0 4) as [_|Hn]; [|lra].
  replace 16 with (4 * 4) by lra. rewrite R_sqrt.sqrt_square by lra. field.
Qed.

End ScoreOnReals.

(** Scenario A in exact arithmetic: volume 16 and net points 4 give 10. *)
Example scenario_A_exact : score (num := R) 16%R 4%R = 10%R.
Proof. rewrite score_R_unfold, spec_rawScore_16_4. apply (Rround_integer 10). Qed.

(** ** [Math.round] on doubles *)

Section RoundOnDoubles.

Import Floats.

Lemma digits2_pos_bounds p :
  2 ^ (Z.pos (digits2_pos p) - 1) <= Z.pos p < 2 ^ Z.pos (digits2_pos p).
Proof.
  induction p as [p IH|p IH|]; cbn [digits2_pos].
  - rewrite Pos2Z.inj_succ.
    replace (Z.succ (Z.pos (digits2_pos p)) - 1) with (Z.succ (Z.pos (digits2_pos p) - 1)) by lia.
    rewrite !Z.pow_succ_r by lia. lia.
  - rewrite Pos2Z.inj_succ.
    replace (Z.succ (Z.pos (digits2_pos p)) - 1) with (Z.succ (Z.pos (digits2_pos p) - 1)) by lia.
    rewrite !Z.pow_succ_r by lia. lia.
  - simpl. lia.
Qed.

Lemma digits2_pos_le p n : 0 <= n → Z.pos p < 2 ^ n → Z.pos (digits2_pos p) <= n.
Proof.
  intros Hn Hp. destruct (digits2_pos_bounds p) as [Hlo _].
  destruct (Z.le_gt_cases (Z.pos (digits2_pos p)) n) as [|Hgt]; [assumption|].
  assert (2 ^ n <= 2 ^ (Z.pos (digits2_pos p) - 1)) by (apply Z.pow_le_mono_r; lia).
  lia.
Qed.

Lemma digits2_pos_iter p k :
  digits2_pos (Pos.iter xO p k) = (digits2_pos p + k)%positive.
Proof.
  induction k as [|k IH] using Pos.peano_ind.
  - simpl. lia.
  - rewrite Pos.iter_succ. cbn [digits2_pos]. rewrite IH. lia.
Qed.

Lemma iter_xO_value p k : Z.pos (Pos.iter xO p k) = Z.pos p * 2 ^ Z.pos k.
Proof.
  induction k as [|k IH] using Pos.peano_ind.
  - simpl. lia.
  - rewrite Pos.iter_succ, Pos2Z.inj_xO, IH, Pos2Z.inj_succ, Z.pow_succ_r by lia. lia.
Qed.

Lemma binary_round_aux_canonical mz ez :
  fexp prec emax (Z.pos (digits2_pos mz) + ez) = ez →
  ez <= emax - prec →
  binary_round_aux prec emax false (Z.pos mz) ez loc_Exact
  = S754_finite false mz ez.
Proof.
  intros Hf He. unfold binary_round_aux, shr_fexp. cbn [Zdigits2].
  rewrite Hf, Z.sub_diag.
  cbn [shr shr_record_of_loc loc_of_shr_record shr_m round_nearest_even Zdigits2].
  rewrite Hf, Z.sub_diag. cbn [shr shr_record_of_loc shr_m].
  apply Z.leb_le in He. rewrite He. reflexivity.
Qed.

(** An integer below 2^53 is a double: its mantissa and exponent. *)
Lemma binary_normalize_small p :
  Z.pos p < 2 ^ 53 →
  ∃ m e, binary_normalize prec emax (Z.pos p) 0 false = S754_finite false m e
         ∧ e <= 0 ∧ Z.pos m = Z.pos p * 2 ^ (- e).
Proof.
  intros Hp.
  pose proof (digits2_pos_le p 53 ltac:(lia) Hp) as Hd.
  unfold binary_normalize, binary_round.
  set (d := digits2_pos p) in *.
  assert (Hfexp : fexp prec emax (Z.pos d + 0) = Z.pos d - 53).
  { unfold fexp, emin, prec, emax. lia. }
  rewrite Hfexp. unfold shl_align.
  destruct (Z.pos d - 53 - 0) as [|q|q] eqn:Hsub; [|lia|].
  - exists p, 0. split; [|split; [lia | simpl; lia]].
    apply binary_round_aux_canonical; [|unfold emax, prec; lia].
    fold d. rewrite Hfexp. lia.
  - exists (Pos.iter xO p q), (Z.pos d - 53).
    split; [|split; [lia|]].
    + apply binary_round_aux_canonical; [|unfold emax, prec; lia].
      rewrite digits2_pos_iter. fold d.
      unfold fexp, emin, prec, emax. lia.
    + rewrite iter_xO_value. f_equal. f_equal. lia.
Qed.

Lemma mantissa_below_2_53 x s m e :
  Prim2SF x = S754_finite s m e → Z.pos m < 2 ^ 53.
Proof.
  intros Hx. pose proof (FloatAxioms.Prim2SF_valid x) as Hv.
  rewrite Hx in Hv. cbn [valid_binary] in Hv.
  unfold bounded, canonical_mantissa in Hv.
  apply andb_prop in Hv as [Hc _]. apply Z.eqb_eq in Hc.
  unfold fexp, emin, prec, emax in Hc.
  assert (Hd : Z.pos (digits2_pos m) <= 53) by lia.
  destruct (digits2_pos_bounds m) as [_ Hhi].
  assert (2 ^ Z.pos (digits2_pos m) <= 2 ^ 53) by (apply Z.pow_le_mono_r; lia).
  lia.
Qed.

Lemma value_of_small_integer q :
  Z.pos q < 2 ^ 53 →
  ∃ m e, Prim2SF (of_uint63 (Uint63.of_Z (Z.pos q))) = S754_finite false m e
         ∧ SF2R (S754_finite false m e) = IZR (Z.pos q).
Proof.
  intros Hq. rewrite FloatAxioms.of_uint63_spec, Uint63.of_Z_spec.
  assert (Hwb : 2 ^ 53 < Uint63.wB).
  { change Uint63.wB with (2 ^ 63). apply Z.pow_lt_mono_r; lia. }
  rewrite Z.mod_small by lia.
  destruct (binary_normalize_small q Hq) as (m & e & Hn & He & Hm).
  exists m, e. split; [exact Hn|].
  cbn [SF2R]. destruct (Z.leb_spec 0 e) as [H0|H0].
  - assert (e = 0) by lia. subst e. simpl in Hm. rewrite Hm. f_equal. simpl. lia.
  - rewrite Hm, mult_IZR. field.
    apply not_0_IZR. assert (0 < 2 ^ (- e)) by (apply Z.pow_pos_nonneg; lia). lia.
Qed.

Lemma round_is_nearest_integer (x : float) :
  finite64 x = true →
  ∃ z : Z,
    value64 (Binary64.round x) = IZR z
    ∧ (value64 x - / 2 < IZR z <= value64 x + / 2)%R
    ∧ finite64 (Binary64.round x) = true.
Proof.
  unfold finite64, value64, Binary64.round.
  destruct (Prim2SF x) as [s| s | |s m e] eqn:Hx; try discriminate; intros _.
  - exists 0. rewrite Hx. simpl. split; [reflexivity|]. split; [lra|reflexivity].
  - destruct (Z.leb_spec 0 e) as [He|He].
    + rewrite Hx. cbn [SF2R].
      destruct (Z.leb_spec 0 e) as [_|Hc]; [|lia].
      eexists. split; [reflexivity|]. split; [lra|reflexivity].
    + pose proof (mantissa_below_2_53 x s m e Hx) as Hm.
      set (d := 2 ^ (- e)).
      set (v := if s then Z.neg m else Z.pos m).
      set (n := (2 * v + d) / (2 * d)).
      assert (Hd : 2 <= d).
      { unfold d. replace (- e) with (Z.succ (- e - 1)) by lia.
        rewrite Z.pow_succ_r by lia.
        assert (0 < 2 ^ (- e - 1)) by (apply Z.pow_pos_nonneg; lia). lia. }
      assert (Hv : - 2 ^ 53 < v < 2 ^ 53) by (unfold v; destruct s; lia).
      assert (Hdiv : 2 * d * n <= 2 * v + d < 2 * d * (n + 1)).
      { unfold n. pose proof (Z.div_mod (2 * v + d) (2 * d) ltac:(lia)) as Hdm.
        pose proof (Z.mod_pos_bound (2 * v + d) (2 * d) ltac:(lia)). lia. }
      assert (Hn : - 2 ^ 53 < n < 2 ^ 53) by nia.
      assert (Hval : SF2R (S754_finite s m e) = (IZR v / IZR d)%R).
      { cbn [SF2R]. destruct (Z.leb_spec 0 e); [lia|]. reflexivity. }
      rewrite Hval.
      assert (HdR : (0 < IZR d)%R) by (apply IZR_lt; lia).
      assert (Hnear : (IZR v / IZR d - / 2 < IZR n <= IZR v / IZR d + / 2)%R).
      { destruct Hdiv as [Hlo Hhi].
        apply IZR_le in Hlo. apply IZR_lt in Hhi.
        rewrite !mult_IZR, !plus_IZR, ?mult_IZR in Hlo, Hhi.
        rewrite ?plus_IZR in Hhi.
        split.
        - apply (Rmult_lt_reg_r (2 * IZR d)); [lra|].
          replace ((IZR v / IZR d - / 2) * (2 * IZR d))%R
            with (2 * IZR v - IZR d)%R by (field; lra).
          lra.
        - apply (Rmult_le_reg_r (2 * IZR d)); [lra|].
          replace ((IZR v / IZR d + / 2) * (2 * IZR d))%R
            with (2 * IZR v + IZR d)%R by (field; lra).
          lra. }
      exists n.
      destruct (Z.eq_dec n 0) as [Hn0|Hn0].
      * rewrite Hn0 in *. change (Z.abs 0) with 0. cbn [Z.ltb Z.eqb orb andb Z.compare].
        split; [|split; [exact Hnear|]]; destruct s; reflexivity.
      * destruct (value_of_small_integer (Z.to_pos (Z.abs n))) as (mq & eq & Hq & Hqv).
        { rewrite Z2Pos.id by lia. lia. }
        rewrite Z2Pos.id in Hq, Hqv by lia.
        replace (n =? 0) with false by (symmetry; apply Z.eqb_neq; assumption).
        cbn [andb orb]. rewrite orb_false_r.
        destruct (Z.ltb_spec n 0) as [Hneg|Hpos].
        -- rewrite FloatAxioms.opp_spec, Hq. cbn [SFopp negb].
           split; [|split; [exact Hnear | reflexivity]].
           cbn [SF2R] in Hqv |- *.
           destruct (0 <=? eq).
           ++ rewrite <- Pos2Z.opp_pos, Z.mul_opp_l, opp_IZR, Hqv, <- opp_IZR. f_equal. lia.
           ++ rewrite <- Pos2Z.opp_pos, opp_IZR.
              unfold Rdiv in *. rewrite Ropp_mult_distr_l_reverse, Hqv, <- opp_IZR. f_equal. lia.
        -- rewrite Hq. split; [|split; [exact Hnear | reflexivity]].
           rewrite Hqv. f_equal. lia.
Qed.

Lemma round_not_finite64 (x : float) :
  finite64 x = false → Binary64.round x = x.
Proof.
  unfold finite64, Binary64.round.
  destruct (Prim2SF x); try discriminate; reflexivity.
Qed.

End RoundOnDoubles.

(** [Math.round] on a finite double is [Math.round] on its real number. *)
Lemma round_binary64_exact (x : PrimFloat.float) :
  finite64 x = true → value64 (Binary64.round x) = Rround (value64 x).
Proof.
  intros Hx. destruct (round_is_nearest_integer x Hx) as (z & -> & Hz & _).
  unfold Rround. f_equal. symmetry. apply Zfloor_eq. lra.
Qed.

(** On doubles the code computes the raw score of the specification, and
    rounds it. *)
Lemma score_binary64_unfold (ts p : PrimFloat.float) :
  score ts p = Binary64.round (spec_rawScore64 ts p).
Proof.
  unfold score, spec_rawScore64.
  cbn [ofZ ngt ndiv nmul nneg Math_sqrt Math_pow2 Math_round Binary64.FloatNumber].
  destruct (PrimFloat.ltb (Binary64.of_Z 0) p); reflexivity.
Qed.

(** C6: on the doubles of the script, for a positive volume, the score is
    [Math.round] of the raw score, which is [10 * netPoints / sqrt
    totalSubmissions] when the net points are positive and [- 2 * netPoints^2
    / totalSubmissions] otherwise. When the raw score is finite the score is
    the integer nearest to it, a tie going up, which is [Rround] of its real
    number; when it is not, the score is the raw score. Scenario A (volume 16,
    net points 4) gives 10. *)
Theorem C6_score_formula (totalSubmissions netPoints : PrimFloat.float) :
  PrimFloat.ltb (ofZ 0) totalSubmissions = true →
  let rawScore := spec_rawScore64 totalSubmissions netPoints in
  score totalSubmissions netPoints = Math_round rawScore
  ∧ (finite64 rawScore = true →
     ∃ z : Z,
       value64 (score totalSubmissions netPoints) = IZR z
       ∧ (value64 rawScore - / 2 < IZR z <= value64 rawScore + / 2)%R
       ∧ IZR z = Rround (value64 rawScore)
       ∧ finite64 (score totalSubmissions netPoints) = true)
  ∧ (finite64 rawScore = false → score totalSubmissions netPoints = rawScore)
  ∧ score (num := PrimFloat.float) (ofZ 16) (ofZ 4) = ofZ 10.
Proof.
  intros _ rawScore. rewrite score_binary64_unfold. fold rawScore.
  split; [reflexivity|]. split; [|split].
  - intros Hfin.
    destruct (round_is_nearest_integer rawScore Hfin) as (z & Hz & Hnear & Hf).
    exists z. split; [exact Hz|]. split; [exact Hnear|]. split; [|exact Hf].
    rewrite <- Hz. apply round_binary64_exact, Hfin.
  - apply round_not_finite64.
  - vm_compute. reflexivity.
Qed.

Lemma C6_witness :
  score (num := PrimFloat.float) (ofZ 16) (ofZ 4)
  = Math_round (spec_rawScore64 (ofZ 16) (ofZ 4))
  ∧ ∃ z : Z,
      value64 (score (ofZ 16) (ofZ 4)) = IZR z
      ∧ (value64 (spec_rawScore64 (ofZ 16) (ofZ 4)) - / 2 < IZR z
         <= value64 (spec_rawScore64 (ofZ 16) (ofZ 4)) + / 2)%R
      ∧ IZR z = Rround (value64 (spec_rawScore64 (ofZ 16) (ofZ 4)))
      ∧ finite64 (score (ofZ 16) (ofZ 4)) = true.
Proof.
  destruct (C6_score_formula (ofZ 16) (ofZ 4)) as (Hround & Hnear & _).
  - reflexivity.
  - split; [exact Hround|]. apply Hnear. reflexivity.
Defined.

(** Every operation rounds to a double: with volume 1 and net points 0.15 the
    raw score is the double 1.5, and the score is 2, though ten times the real
    number of the double 0.15 is below 1.5. *)
Example score_rounds_the_double :
  let netPoints := PrimFloat.div (ofZ 15) (ofZ 100) in
  spec_rawScore64 (ofZ 1) netPoints = PrimFloat.div (ofZ 3) (ofZ 2)
  ∧ score (ofZ 1) netPoints = ofZ 2
  ∧ (10 * value64 netPoints < 3 / 2)%R.
Proof.
  split; [vm_compute; reflexivity|]. split; [vm_compute; reflexivity|].
  cbv zeta. unfold value64.
  replace (FloatOps.Prim2SF (PrimFloat.div (ofZ 15) (ofZ 100)))
    with (SpecFloat.S754_finite false 5404319552844595 (-55))
    by (vm_compute; reflexivity).
  cbn [SF2R]. change (0 <=? -55) with false. cbv iota.
  change (2 ^ (- -55)) with 36028797018963968.
  lra.
Qed.



(** Scenario B on doubles: volume 4 and net points -2 give -2. *)
Example scenario_B_binary64 :
  score (num := PrimFloat.float) (ofZ 4) (ofZ (-2)) = ofZ (-2).
Proof. vm_compute. reflexivity. Qed.

(** ** The aggregation *)

(** C9: a submission whose review has the field [inevitable], whatever its
    value, is left out of the global aggregation (the job baseline) and of the
    aggregation per recruiter and job: the result is the one obtained without
    that submission. *)
Theorem C9_inevitable_field_excludes (from to : Z) (global : bool)
    (before after : list Submission) (s : Submission) (b : bool) :
  review_inevitable s = Some b →
  retrieveRecruitersSubmissions from to global (before ++ s :: after)
  = retrieveRecruitersSubmissions from to global (before ++ after).
Proof.
  intros Hs.
  assert (Hdrop : List.filter (coarse_match from to) (before ++ s :: after)
                  = List.filter (coarse_match from to) (before ++ after)).
  { rewrite !List.filter_app. f_equal. simpl.
    unfold coarse_match at 1. rewrite Hs, andb_false_r. reflexivity. }
  unfold retrieveRecruitersSubmissions, filtered. rewrite Hdrop. reflexivity.
Qed.

Lemma C9_witness :
  retrieveRecruitersSubmissions 0 10 true
    ([Sample.submission "j" "a" true]
     ++ Sample.not_inevitable "j" "b" true :: [Sample.submission "j" "c" false])
  = retrieveRecruitersSubmissions 0 10 true
      ([Sample.submission "j" "a" true] ++ [Sample.submission "j" "c" false]).
Proof.
  apply (C9_inevitable_field_excludes 0 10 true _ _
           (Sample.not_inevitable "j" "b" true) false).
  reflexivity.
Defined.

(** The submission of the witness passes every other test of the filter. *)
Example not_inevitable_otherwise_kept :
  has_window_entry 0 10 (Sample.not_inevitable "j" "b" true) = true
  ∧ coarse_match 0 10 (Sample.submission "j" "b" true) = true
  ∧ coarse_match 0 10 (Sample.not_inevitable "j" "b" true) = false.
Proof. repeat split. Qed.

Section GroupFacts.

Variable j : string.

Lemma over_job_nil field : over_job field j [] = 0.
Proof. reflexivity. Qed.

Lemma over_job_cons field g groups :
  over_job field j (g :: groups)
  = (if decide (id_job g = j) then field g else 0) + over_job field j groups.
Proof.
  unfold over_job. rewrite filter_cons.
  destruct (decide (id_job g = j)); reflexivity.
Qed.

Lemma over_job_app field l1 l2 :
  over_job field j (l1 ++ l2) = over_job field j l1 + over_job field j l2.
Proof.
  induction l1 as [|g l1 IH]; simpl; [rewrite over_job_nil; lia|].
  rewrite !over_job_cons, IH. lia.
Qed.

Lemma over_job_absent field l :
  j ∉ map id_job l → over_job field j l = 0.
Proof.
  induction l as [|g l IH]; intros Hj; [reflexivity|].
  rewrite over_job_cons. simpl in Hj. rewrite not_elem_of_cons in Hj.
  destruct Hj as [Hne Hj]. rewrite (IH Hj).
  destruct (decide (id_job g = j)); [congruence | reflexivity].
Qed.

Lemma over_job_total_positive l :
  Forall (fun g => 1 <= total g) l →
  j ∈ map id_job l → 1 <= over_job total j l.
Proof.
  induction 1 as [|g l Hg Hl IH]; simpl; intros Hin.
  - apply elem_of_nil in Hin. contradiction.
  - rewrite over_job_cons.
    destruct (decide (id_job g = j)) as [Hj|Hj].
    + destruct (decide (j ∈ map id_job l)) as [Hin'|Hnot].
      * specialize (IH Hin'). lia.
      * rewrite (over_job_absent _ _ Hnot). lia.
    + apply elem_of_cons in Hin as [Heq|Hin]; [congruence|].
      specialize (IH Hin). lia.
Qed.

(** A document adds one to the total of its job, and its pass to the passes,
    whichever group it joins. *)
Lemma group_add_total j' r p groups :
  over_job total j (group_add j' r p groups)
  = over_job total j groups + (if decide (j' = j) then 1 else 0).
Proof.
  induction groups as [|g rest IH]; simpl.
  - rewrite over_job_cons, over_job_nil. simpl. lia.
  - destruct (decide (id_job g = j' ∧ id_recruiter g = r)) as [[Hj _]|_].
    + rewrite !over_job_cons. simpl. subst j'.
      destruct (decide (id_job g = j)); lia.
    + rewrite !over_job_cons, IH. lia.
Qed.

Lemma group_add_pass j' r p groups :
  over_job pass j (group_add j' r p groups)
  = over_job pass j groups + (if decide (j' = j) then p else 0).
Proof.
  induction groups as [|g rest IH]; simpl.
  - rewrite over_job_cons, over_job_nil. simpl. lia.
  - destruct (decide (id_job g = j' ∧ id_recruiter g = r)) as [[Hj _]|_].
    + rewrite !over_job_cons. simpl. subst j'.
      destruct (decide (id_job g = j)); lia.
    + rewrite !over_job_cons, IH. lia.
Qed.

(** Grouped by job alone or by recruiter and job, the groups of one job hold
    the same documents. *)
Lemma group_stage_sums global docs :
  over_job total j (group_stage global docs) = docs_total j docs
  ∧ over_job pass j (group_stage global docs) = docs_pass j docs.
Proof.
  unfold group_stage.
  set (step := fun groups d =>
    group_add (p_job d) (if global then None else Some (p_recruiter d))
      (p_pass d) groups).
  enough (Hgen : ∀ acc,
    over_job total j (fold_left step docs acc)
    = over_job total j acc + docs_total j docs
    ∧ over_job pass j (fold_left step docs acc)
      = over_job pass j acc + docs_pass j docs).
  { destruct (Hgen []) as [Ht Hp]. rewrite Ht, Hp, !over_job_nil. lia. }
  induction docs as [|d docs IH]; intros acc; simpl.
  - unfold docs_total, docs_pass. simpl. lia.
  - destruct (IH (step acc d)) as [Ht Hp].
    rewrite Ht, Hp. subst step. cbv beta.
    rewrite group_add_total, group_add_pass.
    unfold docs_total, docs_pass. simpl. lia.
Qed.

Lemma sort_insert_over field g l :
  over_job field j (sort_insert g l) = over_job field j (g :: l).
Proof.
  induction l as [|h t IH]; simpl; [reflexivity|].
  destruct (recruiter_leb g h); [reflexivity|].
  rewrite over_job_cons, IH, !over_job_cons. lia.
Qed.

Lemma sort_stage_over field l :
  over_job field j (sort_stage l) = over_job field j l.
Proof.
  induction l as [|g l IH]; simpl; [reflexivity|].
  rewrite sort_insert_over, !over_job_cons, IH. reflexivity.
Qed.

End GroupFacts.

(** Every group counts at least one document. *)
Lemma group_add_positive j r p groups :
  Forall (fun g => 1 <= total g) groups →
  Forall (fun g => 1 <= total g) (group_add j r p groups).
Proof.
  induction 1 as [|g rest Hg Hrest IH]; simpl.
  - repeat constructor. simpl. lia.
  - destruct (decide (id_job g = j ∧ id_recruiter g = r)).
    + constructor; [simpl; lia | assumption].
    + constructor; assumption.
Qed.

Lemma group_stage_positive global docs :
  Forall (fun g => 1 <= total g) (group_stage global docs).
Proof.
  unfold group_stage.
  set (step := fun groups d =>
    group_add (p_job d) (if global then None else Some (p_recruiter d))
      (p_pass d) groups).
  enough (Hgen : ∀ acc, Forall (fun g => 1 <= total g) acc →
    Forall (fun g => 1 <= total g) (fold_left step docs acc))
    by (apply Hgen; constructor).
  induction docs as [|d docs IH]; intros acc Hacc; simpl; [assumption|].
  apply IH, group_add_positive, Hacc.
Qed.

(** The global aggregation has one group per job. *)
Lemma group_add_global_keys j p groups :
  Forall (fun g => id_recruiter g = None) groups →
  NoDup (map id_job groups) →
  Forall (fun g => id_recruiter g = None) (group_add j None p groups)
  ∧ NoDup (map id_job (group_add j None p groups))
  ∧ ∀ k, k ∈ map id_job (group_add j None p groups)
         ↔ k = j ∨ k ∈ map id_job groups.
Proof.
  induction groups as [|g rest IH]; intros Hnone Hnd; simpl.
  - split; [repeat constructor|]. split; [apply NoDup_singleton|].
    intros k. rewrite list_elem_of_singleton, elem_of_nil. tauto.
  - apply Forall_cons in Hnone as [Hg Hrest]. simpl in Hnd.
    apply NoDup_cons in Hnd as [Hnotin Hnd].
    destruct (decide (id_job g = j ∧ id_recruiter g = None)) as [[Hj _]|Hne]; simpl.
    + subst j. split; [constructor; [reflexivity|assumption]|].
      split; [apply NoDup_cons; auto|]. intros k. rewrite elem_of_cons. tauto.
    + destruct (IH Hrest Hnd) as (IH1 & IH2 & IH3).
      assert (id_job g ≠ j) by (intros Heq; apply Hne; auto).
      split; [constructor; assumption|].
      split.
      * apply NoDup_cons. split; [|assumption]. rewrite IH3. tauto.
      * intros k. rewrite !elem_of_cons, IH3. tauto.
Qed.

Lemma group_stage_global_keys docs :
  NoDup (map id_job (group_stage true docs)).
Proof.
  unfold group_stage.
  enough (Hgen : ∀ acc, Forall (fun g => id_recruiter g = None) acc →
    NoDup (map id_job acc) →
    NoDup (map id_job
      (fold_left (fun groups d => group_add (p_job d) None (p_pass d) groups)
         docs acc))) by (apply Hgen; constructor).
  induction docs as [|d docs IH]; intros acc Hnone Hnd; simpl; [assumption|].
  destruct (group_add_global_keys (p_job d) (p_pass d) acc Hnone Hnd) as (H1 & H2 & _).
  apply IH; assumption.
Qed.

(** Grouped by recruiter and job, every group has a recruiter. *)
Lemma group_stage_recruiters docs :
  Forall (fun g => is_Some (id_recruiter g)) (group_stage false docs).
Proof.
  unfold group_stage.
  set (step := fun groups d =>
    group_add (p_job d) (Some (p_recruiter d)) (p_pass d) groups).
  enough (Hgen : ∀ acc, Forall (fun g => is_Some (id_recruiter g)) acc →
    Forall (fun g => is_Some (id_recruiter g)) (fold_left step docs acc))
    by (apply Hgen; constructor).
  induction docs as [|d docs IH]; intros acc Hacc; simpl; [assumption|].
  apply IH. unfold step. clear IH.
  induction Hacc as [|g rest Hg Hrest IHr]; simpl.
  - repeat constructor. simpl. eauto.
  - destruct (decide (id_job g = p_job d ∧ id_recruiter g = Some (p_recruiter d))).
    + constructor; [simpl; eauto | assumption].
    + constructor; assumption.
Qed.

(** *** The sort *)

Lemma elem_of_sort_insert x g l : x ∈ sort_insert g l ↔ x = g ∨ x ∈ l.
Proof.
  induction l as [|h t IH]; simpl.
  - rewrite list_elem_of_singleton, elem_of_nil. tauto.
  - destruct (recruiter_leb g h).
    + rewrite elem_of_cons. tauto.
    + rewrite !elem_of_cons, IH. tauto.
Qed.

Lemma elem_of_sort_stage x l : x ∈ sort_stage l ↔ x ∈ l.
Proof.
  induction l as [|g l IH]; simpl; [reflexivity|].
  rewrite elem_of_sort_insert, elem_of_cons, IH. reflexivity.
Qed.

Lemma string_leb_cases x y :
  String.leb x y = true ↔ x = y ∨ String_as_OT.lt x y.
Proof.
  unfold String.leb.
  destruct (String.compare x y) eqn:Hc.
  - apply String_as_OT.cmp_eq in Hc. tauto.
  - apply String_as_OT.cmp_lt in Hc. tauto.
  - split; [discriminate|]. intros [Heq|Hlt].
    + apply String_as_OT.cmp_eq in Heq. unfold String_as_OT.cmp in Heq. congruence.
    + apply String_as_OT.cmp_lt in Hlt. unfold String_as_OT.cmp in Hlt. congruence.
Qed.

Lemma string_leb_trans x y z :
  String.leb x y = true → String.leb y z = true → String.leb x z = true.
Proof.
  rewrite !string_leb_cases. intros [->|Hxy] [->|Hyz]; auto.
  right. eapply String_as_OT.lt_trans; eassumption.
Qed.

Lemma id_leb_trans a b c :
  id_leb a b = true → id_leb b c = true → id_leb a c = true.
Proof.
  destruct a as [x|], b as [y|], c as [z|]; simpl; try congruence.
  apply string_leb_trans.
Qed.

Lemma id_leb_total a b : id_leb a b = true ∨ id_leb b a = true.
Proof.
  destruct a as [x|], b as [y|]; simpl; auto. apply String.leb_total.
Qed.

Lemma id_leb_antisym a b : id_leb a b = true → id_leb b a = true → a = b.
Proof.
  destruct a as [x|], b as [y|]; simpl; try congruence.
  intros Hxy Hyx. f_equal. apply String.leb_antisym; assumption.
Qed.

Lemma sort_insert_sorted g l :
  sorted_by_recruiter l → sorted_by_recruiter (sort_insert g l).
Proof.
  unfold sorted_by_recruiter.
  induction 1 as [|h t Ht IH Hh]; simpl.
  - repeat constructor.
  - destruct (recruiter_leb g h) eqn:Hgh.
    + constructor; [constructor; assumption|].
      constructor; [assumption|].
      eapply Forall_impl; [exact Hh|]. intros x Hx. unfold recruiter_leb in *.
      eapply id_leb_trans; eassumption.
    + constructor; [assumption|].
      rewrite Forall_forall. intros x Hx.
      apply elem_of_sort_insert in Hx as [->|Hx].
      * unfold recruiter_leb in *.
        destruct (id_leb_total (id_recruiter h) (id_recruiter g)); congruence.
      * rewrite Forall_forall in Hh. apply Hh. assumption.
Qed.

(** The cursor of the script is sorted by recruiter. *)
Lemma sort_stage_sorted l : sorted_by_recruiter (sort_stage l).
Proof.
  induction l as [|g l IH]; simpl; [constructor|].
  apply sort_insert_sorted, IH.
Qed.

(** ** The baseline *)

Section Baseline.

Context {num : Type} `{Number num}.

Lemma subsPerJobs_of_snoc (groups : list Grouped) g :
  subsPerJobs_of (num := num) (groups ++ [g])
  = <[id_job g := {| job_total := total g; job_pass := pass g;
                     approvalRatio := ndiv (ofZ (pass g)) (ofZ (total g)) |}]>
      (subsPerJobs_of groups).
Proof. unfold subsPerJobs_of. rewrite fold_left_app. reflexivity. Qed.

(** [subsPerJobs] has an entry for the jobs of the aggregation, and no other. *)
Lemma subsPerJobs_of_dom (groups : list Grouped) j :
  is_Some (subsPerJobs_of (num := num) groups !! j) ↔ j ∈ map id_job groups.
Proof.
  induction groups as [|g groups IH] using rev_ind.
  - unfold subsPerJobs_of. simpl. rewrite lookup_empty, elem_of_nil.
    split; [intros [? ?]; discriminate | contradiction].
  - rewrite subsPerJobs_of_snoc, map_app, elem_of_app. simpl.
    rewrite list_elem_of_singleton.
    destruct (decide (id_job g = j)) as [->|Hne].
    + rewrite lookup_insert_eq. split; eauto.
    + rewrite lookup_insert_ne by assumption. rewrite IH.
      split; [tauto|]. intros [Hin|Heq]; [assumption|congruence].
Qed.

(** With one group per job, the entry of a job holds the counts of that job
    and their quotient. *)
Lemma subsPerJobs_of_lookup (groups : list Grouped) j b :
  NoDup (map id_job groups) →
  subsPerJobs_of (num := num) groups !! j = Some b →
  job_total b = over_job total j groups
  ∧ job_pass b = over_job pass j groups
  ∧ approvalRatio b = ndiv (ofZ (job_pass b)) (ofZ (job_total b)).
Proof.
  revert b. induction groups as [|g groups IH] using rev_ind; intros b Hnd Hb.
  - unfold subsPerJobs_of in Hb. simpl in Hb. rewrite lookup_empty in Hb.
    discriminate.
  - rewrite subsPerJobs_of_snoc in Hb.
    rewrite map_app in Hnd. apply NoDup_app in Hnd as (Hnd & Hdisj & _).
    rewrite !over_job_app, !over_job_cons, !over_job_nil.
    destruct (decide (id_job g = j)) as [Hj|Hj].
    + subst j. rewrite lookup_insert_eq in Hb. injection Hb as <-. simpl.
      assert (Hnot : id_job g ∉ map id_job groups).
      { intros Hin. apply (Hdisj _ Hin). simpl.
        apply list_elem_of_singleton. reflexivity. }
      rewrite !(over_job_absent _ _ _ Hnot).
      repeat split; lia.
    + rewrite lookup_insert_ne in Hb by assumption.
      destruct (IH b Hnd Hb) as (Ht & Hp & Hr).
      repeat split; [lia | lia | assumption].
Qed.

(** Every job of the cursor has its baseline: line 194 reads no property of
    [undefined]. *)
Lemma cursor_jobs_have_baseline from to subs r :
  r ∈ retrieveRecruitersSubmissions from to false subs →
  is_Some (subsPerJobs_of (num := num)
             (retrieveRecruitersSubmissions from to true subs) !! id_job r).
Proof.
  unfold retrieveRecruitersSubmissions. intros Hr.
  rewrite elem_of_sort_stage in Hr.
  apply subsPerJobs_of_dom.
  destruct (decide (id_job r ∈ map id_job (group_stage true (filtered from to subs))))
    as [Hin|Hnot]; [assumption|exfalso].
  pose proof (over_job_absent (id_job r) total _ Hnot) as Hzero.
  destruct (group_stage_sums (id_job r) true (filtered from to subs)) as [Ht _].
  destruct (group_stage_sums (id_job r) false (filtered from to subs)) as [Hf _].
  assert (Hpos : 1 <= over_job total (id_job r)
                        (group_stage false (filtered from to subs))).
  { apply over_job_total_positive; [apply group_stage_positive|].
    apply list_elem_of_fmap. exists r. split; [reflexivity|assumption]. }
  lia.
Qed.

End Baseline.

(** ** Conservation *)

Section Conservation.

Local Open Scope R_scope.

Lemma fold_left_Rplus_acc (l : list R) a :
  fold_left Rplus l a = a + fold_left Rplus l 0.
Proof.
  revert a. induction l as [|x l IH]; intros a; simpl; [lra|].
  rewrite (IH (a + x)), (IH (0 + x)). lra.
Qed.

(** Over the documents of one job, the deltas sum to the passes minus the
    passes expected at the approval ratio. *)
Lemma nsum_delta (b : JobStat R) j l :
  nsum (map (delta b) (filter (fun r => id_job r = j) l))
  = IZR (over_job pass j l) - IZR (over_job total j l) * approvalRatio b.
Proof.
  unfold nsum. cbn [nadd ofZ RNumber].
  induction l as [|r l IH].
  - simpl. rewrite !over_job_nil. lra.
  - rewrite filter_cons, !over_job_cons.
    destruct (decide (id_job r = j)).
    + simpl. rewrite fold_left_Rplus_acc, IH, !plus_IZR.
      unfold delta. cbn [nsub nmul ofZ RNumber]. lra.
    + rewrite IH, !Z.add_0_l. reflexivity.
Qed.

End Conservation.

(** C5: in exact arithmetic, for every job with a baseline, the approval
    ratio is the job's passes over the job's total, both counted on the
    filtered submissions of that job, and the deltas
    [pass - total * approvalRatio] of all the (recruiter, job) documents of
    that job sum to zero. *)
Theorem C5_conservation (from to : Z) (subs : list Submission) (j : string)
    (baseline : JobStat R) :
  subsPerJobs_of (retrieveRecruitersSubmissions from to true subs) !! j
  = Some baseline →
  job_total baseline = docs_total j (filtered from to subs)
  ∧ job_pass baseline = docs_pass j (filtered from to subs)
  ∧ approvalRatio baseline
    = (IZR (job_pass baseline) / IZR (job_total baseline))%R
  ∧ nsum (map (delta baseline)
            (filter (fun r => id_job r = j)
               (retrieveRecruitersSubmissions from to false subs))) = 0%R.
Proof.
  intros Hb. rewrite nsum_delta. unfold retrieveRecruitersSubmissions in *.
  rewrite !sort_stage_over.
  destruct (group_stage_sums j false (filtered from to subs)) as [Ht Hp].
  destruct (group_stage_sums j true (filtered from to subs)) as [Ht' Hp'].
  destruct (subsPerJobs_of_lookup _ _ _ (group_stage_global_keys _) Hb)
    as (Hbt & Hbp & Hr).
  assert (Hpos : 1 <= over_job total j (group_stage true (filtered from to subs))).
  { apply over_job_total_positive; [apply group_stage_positive|].
    apply (subsPerJobs_of_dom (num := R)). rewrite Hb. eauto. }
  rewrite Ht' in Hbt, Hpos. rewrite Hp' in Hbp.
  split; [assumption|]. split; [assumption|]. split; [assumption|].
  rewrite Hr, Hbt, Hbp, Ht, Hp.
  cbn [ndiv ofZ RNumber].
  assert (IZR (docs_total j (filtered from to subs)) <> 0%R).
  { apply not_0_IZR. lia. }
  field. assumption.
Qed.

Lemma C5_witness :
  job_total Sample.half = docs_total "j" (filtered 0 10 Sample.scenario_D)
  ∧ job_pass Sample.half = docs_pass "j" (filtered 0 10 Sample.scenario_D)
  ∧ approvalRatio Sample.half
    = (IZR (job_pass Sample.half) / IZR (job_total Sample.half))%R
  ∧ nsum (map (delta Sample.half)
            (filter (fun r => id_job r = "j")
               (retrieveRecruitersSubmissions 0 10 false Sample.scenario_D)))
    = 0%R.
Proof.
  apply (C5_conservation 0 10 Sample.scenario_D "j" Sample.half).
  reflexivity.
Defined.

(** Scenario D on doubles: the baseline is 0.5, the deltas are 3 and -3. *)
Example scenario_D_binary64 :
  map (delta_in (num := PrimFloat.float)
         (subsPerJobs_of (retrieveRecruitersSubmissions 0 10 true Sample.scenario_D)))
      (retrieveRecruitersSubmissions 0 10 false Sample.scenario_D)
  = [ofZ 3; ofZ (-3)].
Proof. vm_compute. reflexivity. Qed.

(** ** computeAndSaveScore *)

Section Update.

Context {num : Type} `{Number num}.
Variable saveResult : string → option (gmap string Z).

(** The user is there and the save resolves: the call returns the outcome of
    the save and writes [max(1, maxSlots + score)]. *)
Lemma computeAndSaveScore_saved (w : World num) id T P current outcome :
  maxSlots w !! id = Some current →
  saveResult id = Some outcome →
  computeAndSaveScore saveResult (Some id) T P w
  = ({| maxSlots := <[id := Math_max (ofZ 1) (nadd current (score T P))]> (maxSlots w);
        calls := calls w ++ [call_of (Some id) T P] |},
     Normal (Some outcome)).
Proof.
  intros Hm Ho.
  unfold computeAndSaveScore, record_call, catch_undefined, findOne, save,
    mbind, M_bind, mret, M_ret. simpl.
  rewrite Hm. simpl. rewrite Ho. reflexivity.
Qed.

(** No user, or a save that rejects: the call returns [undefined] and writes
    nothing. *)
Lemma computeAndSaveScore_undefined (w : World num) a T P :
  (∀ id, a = Some id → maxSlots w !! id = None ∨ saveResult id = None) →
  computeAndSaveScore saveResult a T P w
  = ({| maxSlots := maxSlots w; calls := calls w ++ [call_of a T P] |},
     Normal None).
Proof.
  intros Hno.
  unfold computeAndSaveScore, record_call, catch_undefined, findOne, save,
    mbind, M_bind, mret, M_ret. simpl.
  destruct a as [id|]; simpl; [|reflexivity].
  destruct (maxSlots w !! id) as [m|] eqn:Hm; simpl; [|reflexivity].
  destruct (Hno id eq_refl) as [Hnone|Hrej]; [congruence|].
  rewrite Hrej. reflexivity.
Qed.

Lemma computeAndSaveScore_resolves (w : World num) a T P :
  resolves saveResult w (call_of a T P) →
  ∃ w' x o, a = Some x ∧ saveResult x = Some o
    ∧ computeAndSaveScore saveResult a T P w = (w', Normal (Some o))
    ∧ calls w' = calls w ++ [call_of a T P]
    ∧ ∀ k, is_Some (maxSlots w !! k) → is_Some (maxSlots w' !! k).
Proof.
  intros (x & Hx & [m Hm] & [o Ho]). simpl in Hx. subst a.
  eexists _, x, o. split; [reflexivity|]. split; [assumption|].
  rewrite (computeAndSaveScore_saved w x T P m o Hm Ho).
  split; [reflexivity|]. split; [reflexivity|].
  simpl. intros k Hk.
  destruct (decide (x = k)) as [->|Hne].
  - rewrite lookup_insert_eq. eauto.
  - rewrite lookup_insert_ne by assumption. assumption.
Qed.

End Update.

(** *** Volume zero on doubles *)

Section ZeroVolume.

Import Floats.

(** Dividing by the double 0 gives NaN or an infinity, whatever is divided. *)
Lemma div_by_zero_not_finite (x : float) : not_finite64 (x / 0)%float.
Proof.
  unfold not_finite64.
  assert (Hdiv := FloatAxioms.div_spec x 0%float).
  change (Prim2SF 0%float) with (S754_zero false) in Hdiv.
  destruct (Prim2SF x) as [s| s | |s m e] eqn:Hx; cbn in Hdiv.
  - left. apply FloatAxioms.Prim2SF_inj. rewrite Hdiv. reflexivity.
  - destruct s; [right; right | right; left];
      apply FloatAxioms.Prim2SF_inj; rewrite Hdiv; reflexivity.
  - left. apply FloatAxioms.Prim2SF_inj. rewrite Hdiv. reflexivity.
  - destruct s; [right; right | right; left];
      apply FloatAxioms.Prim2SF_inj; rewrite Hdiv; reflexivity.
Qed.

Lemma round_not_finite (x : float) : not_finite64 x → Binary64.round x = x.
Proof. intros [->|[->| ->]]; reflexivity. Qed.

(** With volume 0 both branches of the score divide by the double 0. *)
Lemma score_zero_volume (p : float) : not_finite64 (score (ofZ 0) p).
Proof.
  unfold score.
  cbn [ofZ ngt ndiv nmul nneg Math_sqrt Math_pow2 Math_round Binary64.FloatNumber].
  change (Binary64.of_Z 0) with 0%float.
  change (sqrt 0) with 0%float.
  destruct (0 <? p)%float.
  - pose proof (div_by_zero_not_finite (Binary64.of_Z GROWTH_FACTOR * p)) as Hd.
    rewrite (round_not_finite _ Hd). exact Hd.
  - pose proof (div_by_zero_not_finite
                  (- Binary64.of_Z DIMINISHING_FACTOR * (p * p))) as Hd.
    rewrite (round_not_finite _ Hd). exact Hd.
Qed.

(** Adding a double that is not finite gives a double that is not finite. *)
Lemma add_not_finite (x s : float) : not_finite64 s → not_finite64 (x + s)%float.
Proof.
  unfold not_finite64. intros Hs.
  assert (Hadd := FloatAxioms.add_spec x s).
  destruct Hs as [->|[->| ->]].
  - change (Prim2SF nan) with S754_nan in Hadd.
    left. apply FloatAxioms.Prim2SF_inj. rewrite Hadd.
    destruct (Prim2SF x); reflexivity.
  - change (Prim2SF infinity) with (S754_infinity false) in Hadd.
    destruct (Prim2SF x) as [s| s | |s m e] eqn:Hx; cbn in Hadd.
    + right; left. apply FloatAxioms.Prim2SF_inj. rewrite Hadd. reflexivity.
    + destruct s; cbn in Hadd.
      * left. apply FloatAxioms.Prim2SF_inj. rewrite Hadd. reflexivity.
      * right; left. apply FloatAxioms.Prim2SF_inj. rewrite Hadd. reflexivity.
    + left. apply FloatAxioms.Prim2SF_inj. rewrite Hadd. reflexivity.
    + right; left. apply FloatAxioms.Prim2SF_inj. rewrite Hadd. reflexivity.
  - change (Prim2SF neg_infinity) with (S754_infinity true) in Hadd.
    destruct (Prim2SF x) as [s| s | |s m e] eqn:Hx; cbn in Hadd.
    + right; right. apply FloatAxioms.Prim2SF_inj. rewrite Hadd. reflexivity.
    + destruct s; cbn in Hadd.
      * right; right. apply FloatAxioms.Prim2SF_inj. rewrite Hadd. reflexivity.
      * left. apply FloatAxioms.Prim2SF_inj. rewrite Hadd. reflexivity.
    + left. apply FloatAxioms.Prim2SF_inj. rewrite Hadd. reflexivity.
    + right; right. apply FloatAxioms.Prim2SF_inj. rewrite Hadd. reflexivity.
Qed.

(** [Math.max(1, x)] of such a double: NaN stays, [+Infinity] stays, and
    [-Infinity] gives 1. *)
Lemma max_one_not_finite (x : float) :
  not_finite64 x →
  Binary64.max (ofZ 1) x = nan ∨ Binary64.max (ofZ 1) x = infinity
  ∨ Binary64.max (ofZ 1) x = ofZ 1.
Proof. intros [->|[->| ->]]; [left | right; left | right; right]; reflexivity. Qed.

End ZeroVolume.

(** C3, as the code has it, on the doubles of the script: with
    [totalSubmissions = 0] no error is raised. Whatever the net points, the
    score is NaN, [+Infinity] or [-Infinity], and the call completes normally:
    without a user or with a save that rejects it resolves with [undefined]
    and writes nothing; otherwise it resolves with the outcome of the save and
    writes [max(1, maxSlots + score)], which is NaN, [+Infinity] or 1. *)
Theorem C3_zero_volume_completes
    (saveResult : string → option (gmap string Z))
    (recruiterId : option string) (netPoints : PrimFloat.float)
    (w : World PrimFloat.float) :
  let s := score (ofZ 0) netPoints in
  not_finite64 s
  ∧ ∃ w' updates,
      computeAndSaveScore saveResult recruiterId (ofZ 0) netPoints w
      = (w', Normal updates)
      ∧ calls w' = calls w ++ [call_of recruiterId (ofZ 0) netPoints]
      ∧ ((updates = None ∧ maxSlots w' = maxSlots w
          ∧ (recruiterId = None
             ∨ ∃ id, recruiterId = Some id
                 ∧ (maxSlots w !! id = None ∨ saveResult id = None)))
         ∨ ∃ id current outcome written,
             recruiterId = Some id
             ∧ maxSlots w !! id = Some current
             ∧ saveResult id = Some outcome
             ∧ updates = Some outcome
             ∧ written = Math_max (ofZ 1) (nadd current s)
             ∧ maxSlots w' = <[id := written]> (maxSlots w)
             ∧ (written = PrimFloat.nan ∨ written = PrimFloat.infinity
                ∨ written = ofZ 1)).
Proof.
  intros s. pose proof (score_zero_volume netPoints) as Hs. fold s in Hs.
  split; [exact Hs|].
  destruct recruiterId as [id|].
  - destruct (maxSlots w !! id) as [m|] eqn:Hm.
    + destruct (saveResult id) as [o|] eqn:Ho.
      * rewrite (computeAndSaveScore_saved saveResult w id _ _ m o Hm Ho).
        eexists _, _. split; [reflexivity|]. split; [reflexivity|].
        right. exists id, m, o, (Math_max (ofZ 1) (nadd m s)).
        split; [reflexivity|]. split; [exact Hm|]. split; [exact Ho|].
        repeat (split; [reflexivity|]).
        apply (max_one_not_finite (PrimFloat.add m s)), add_not_finite, Hs.
      * rewrite computeAndSaveScore_undefined by (intros id' [= <-]; auto).
        eexists _, _. split; [reflexivity|]. split; [reflexivity|].
        left. split; [reflexivity|]. split; [reflexivity|]. right. eauto.
    + rewrite computeAndSaveScore_undefined by (intros id' [= <-]; auto).
      eexists _, _. split; [reflexivity|]. split; [reflexivity|].
      left. split; [reflexivity|]. split; [reflexivity|]. right. eauto.
  - rewrite computeAndSaveScore_undefined by (intros id' [=]).
    eexists _, _. split; [reflexivity|]. split; [reflexivity|].
    left. split; [reflexivity|]. split; [reflexivity|]. left. reflexivity.
Qed.

(** On doubles, a call with volume 0 and net points 1 does not throw: the
    score is [+Infinity], and it is saved as the recruiter's [maxSlots]. *)
Lemma C3_zero_volume_counterexample :
  score (num := PrimFloat.float) (ofZ 0) (ofZ 1) = PrimFloat.infinity
  ∧ computeAndSaveScore Sample.save_ok (Some "a") (ofZ 0) (ofZ 1) Sample.budgets_abc
    = ({| maxSlots := <["a" := PrimFloat.infinity]> (maxSlots Sample.budgets_abc);
          calls := [call_of (Some "a") (ofZ 0) (ofZ 1)] |},
       Normal (Some Sample.updated_one)).
Proof. split; reflexivity. Qed.

(** The two other signs of the net points, at volume 0. *)
Example zero_volume_other_scores :
  score (num := PrimFloat.float) (ofZ 0) (ofZ 0) = PrimFloat.nan
  ∧ score (num := PrimFloat.float) (ofZ 0) (ofZ (-1)) = PrimFloat.neg_infinity.
Proof. split; vm_compute; reflexivity. Qed.



(** Scenario C on doubles: [maxSlots] 1 and score -50 leave [maxSlots] at 1. *)
Example scenario_C_binary64 :
  score (num := PrimFloat.float) (ofZ 1) (ofZ (-5)) = ofZ (-50)
  ∧ maxSlots
      (computeAndSaveScore Sample.save_ok (Some "a") (ofZ 1) (ofZ (-5))
         {| maxSlots := <["a" := ofZ 1]> ∅; calls := [] |}).1 !! "a"
    = Some (ofZ 1 : PrimFloat.float).
Proof. split; vm_compute; reflexivity. Qed.

(** ** The loop *)

Section Loop.

Context {num : Type} `{Number num}.
Variable saveResult : string → option (gmap string Z).
Variable subsPerJobs : gmap string (JobStat num).

Lemma truthy_Some a : truthy (Some a) = true ↔ a ≠ "".
Proof.
  simpl. destruct (String.eqb_spec a ""); simpl; split; intros; congruence.
Qed.

(** One turn of the loop, case by case. While no recruiter is remembered, the
    recruiter of the document is adopted and nothing is flushed. *)
Lemma iteration_first r b (st : LoopState num) w :
  truthy (lastRecruiter st) = false →
  subsPerJobs !! id_job r = Some b →
  iteration saveResult subsPerJobs (Some r) st w
  = (w, Normal {| lastRecruiter := id_recruiter r;
                  totalSubmissions := nadd (totalSubmissions st) (ofZ (total r));
                  points := nadd (points st) (delta b r);
                  results := results st |}).
Proof.
  intros Hlast Hb. unfold iteration. cbn [mbind option_bind].
  rewrite Hlast.
  destruct (decide (id_recruiter r ≠ id_recruiter r)) as [Hn|_];
    [congruence|].
  unfold mbind, M_bind, mret, M_ret.
  cbn [lastRecruiter totalSubmissions points results].
  rewrite Hb. reflexivity.
Qed.

(** The same recruiter as before: the document is accumulated. *)
Lemma iteration_same r b (st : LoopState num) w :
  truthy (lastRecruiter st) = true →
  id_recruiter r = lastRecruiter st →
  subsPerJobs !! id_job r = Some b →
  iteration saveResult subsPerJobs (Some r) st w
  = (w, Normal {| lastRecruiter := lastRecruiter st;
                  totalSubmissions := nadd (totalSubmissions st) (ofZ (total r));
                  points := nadd (points st) (delta b r);
                  results := results st |}).
Proof.
  intros Hlast Heq Hb. unfold iteration. cbn [mbind option_bind].
  rewrite Hlast.
  destruct (decide (lastRecruiter st ≠ id_recruiter r)) as [Hn|_];
    [congruence|].
  unfold mbind, M_bind, mret, M_ret.
  cbn [lastRecruiter totalSubmissions points results].
  rewrite Hb. reflexivity.
Qed.

(** Another recruiter, or the end of the cursor: the remembered recruiter is
    flushed. When the update is [undefined], reading its [insertedCount]
    throws; otherwise the counters are merged and the accumulators restart. *)
Lemma iteration_flush recJobSubs (st : LoopState num) w w1 updates :
  truthy (lastRecruiter st) = true →
  recJobSubs ≫= id_recruiter ≠ lastRecruiter st →
  computeAndSaveScore saveResult (lastRecruiter st) (totalSubmissions st)
    (points st) w = (w1, Normal updates) →
  iteration saveResult subsPerJobs recJobSubs st w
  = match updates with
    | None =>
        (w1, Throw (TypeError "Cannot read property 'insertedCount' of undefined"))
    | Some o =>
        match recJobSubs with
        | None =>
            (w1, Normal {| lastRecruiter := None;
                           totalSubmissions := ofZ 0;
                           points := ofZ 0;
                           results := merge_results (results st) o |})
        | Some r =>
            match subsPerJobs !! id_job r with
            | Some b =>
                (w1, Normal {| lastRecruiter := id_recruiter r;
                               totalSubmissions := nadd (ofZ 0) (ofZ (total r));
                               points := nadd (ofZ 0) (delta b r);
                               results := merge_results (results st) o |})
            | None =>
                (w1, Throw (TypeError
                              "Cannot read property 'approvalRatio' of undefined"))
            end
        end
    end.
Proof.
  intros Hlast Hne Hrun. unfold iteration. rewrite Hlast.
  destruct (decide (lastRecruiter st ≠ recJobSubs ≫= id_recruiter)) as [_|Hn];
    [|exfalso; apply Hn; intros Heq; apply Hne; auto].
  unfold mbind, M_bind. rewrite Hrun.
  destruct updates as [o|]; [|reflexivity].
  destruct recJobSubs as [r|]; [|reflexivity].
  unfold mret, M_ret, throw. cbn [lastRecruiter totalSubmissions points results].
  destruct (subsPerJobs !! id_job r); reflexivity.
Qed.

(** A flush whose recruiter has no budget, or whose save rejects, ends the
    run with a [TypeError]. *)
Lemma undefined_update_aborts recJobSubs (st : LoopState num) w :
  truthy (lastRecruiter st) = true →
  recJobSubs ≫= id_recruiter ≠ lastRecruiter st →
  (∀ id, lastRecruiter st = Some id →
         maxSlots w !! id = None ∨ saveResult id = None) →
  (iteration saveResult subsPerJobs recJobSubs st w).2
  = Throw (TypeError "Cannot read property 'insertedCount' of undefined").
Proof.
  intros Hlast Hne Hno.
  rewrite (iteration_flush recJobSubs st w _ None Hlast Hne
             (computeAndSaveScore_undefined saveResult w _ _ _ Hno)).
  reflexivity.
Qed.

(** While every update resolves, the loop makes the calls of the fold of the
    specification, in order, and returns the merge of their outcomes. *)
Lemma loop_fold_flushes l : ∀ (st : LoopState num) w,
  truthy (lastRecruiter st) = true →
  Forall (well_formed subsPerJobs) l →
  Forall (resolves saveResult w)
    (fold_flushes subsPerJobs (lastRecruiter st) (totalSubmissions st)
       (points st) l) →
  ∃ w',
    loop saveResult subsPerJobs l st w
    = (w', Normal (fold_left merge_results
                     (outcomes saveResult
                        (fold_flushes subsPerJobs (lastRecruiter st)
                           (totalSubmissions st) (points st) l))
                     (results st)))
    ∧ calls w'
      = calls w ++ fold_flushes subsPerJobs (lastRecruiter st)
                     (totalSubmissions st) (points st) l
    ∧ ∀ k, is_Some (maxSlots w !! k) → is_Some (maxSlots w' !! k).
Proof.
  induction l as [|r t IH]; intros st w Hlast Hwf Hres.
  - cbn [fold_flushes] in *. apply Forall_cons in Hres as [Hres _].
    destruct (computeAndSaveScore_resolves _ _ _ _ _ Hres)
      as (w' & x & o & Hx & Ho & Hrun & Hcalls & Hdom).
    exists w'. cbn [loop]. unfold mbind at 1. unfold M_bind.
    rewrite (iteration_flush None st w w' (Some o)); [| assumption | | assumption].
    + unfold outcomes. cbn. rewrite Hx in *. cbn. rewrite Ho.
      split; [reflexivity | split; assumption].
    + rewrite Hx. discriminate.
  - apply Forall_cons in Hwf as [[Htr [b Hb]] Hwf].
    assert (Hd : delta_in subsPerJobs r = delta b r)
      by (unfold delta_in; rewrite Hb; reflexivity).
    cbn [fold_flushes loop] in *. unfold mbind at 1. unfold M_bind.
    rewrite Hd in *.
    destruct (decide (id_recruiter r = lastRecruiter st)) as [Heq|Hne].
    + rewrite (iteration_same r b st w Hlast Heq Hb).
      set (st' := {| lastRecruiter := lastRecruiter st;
                     totalSubmissions := nadd (totalSubmissions st) (ofZ (total r));
                     points := nadd (points st) (delta b r);
                     results := results st |}).
      destruct (IH st' w Hlast Hwf Hres) as (w' & Hrun & Hcalls & Hdom).
      exists w'. auto.
    + apply Forall_cons in Hres as [Hres1 Hres].
      destruct (computeAndSaveScore_resolves _ _ _ _ _ Hres1)
        as (w1 & x & o & Hx & Ho & Hrun1 & Hcalls1 & Hdom1).
      rewrite (iteration_flush (Some r) st w w1 (Some o) Hlast Hne Hrun1), Hb.
      set (st' := {| lastRecruiter := id_recruiter r;
                     totalSubmissions := nadd (ofZ 0) (ofZ (total r));
                     points := nadd (ofZ 0) (delta b r);
                     results := merge_results (results st) o |}).
      assert (Hres' : Forall (resolves saveResult w1)
                (fold_flushes subsPerJobs (lastRecruiter st')
                   (totalSubmissions st') (points st') t)).
      { eapply Forall_impl; [exact Hres|].
        intros c (y & Hy & Hm & Hs). exists y. auto. }
      destruct (IH st' w1 Htr Hwf Hres') as (w' & Hrun & Hcalls & Hdom).
      exists w'. split; [|split].
      * rewrite Hrun. unfold outcomes. cbn. rewrite Hx. cbn. rewrite Ho.
        reflexivity.
      * rewrite Hcalls, Hcalls1, <- app_assoc. reflexivity.
      * auto.
Qed.

(** The loop from its initial state. *)
Lemma loop_flushes l w :
  Forall (well_formed subsPerJobs) l →
  Forall (resolves saveResult w) (flushes subsPerJobs l) →
  ∃ w',
    loop saveResult subsPerJobs l initial w
    = (w', Normal (fold_left merge_results
                     (outcomes saveResult (flushes subsPerJobs l)) ∅))
    ∧ calls w' = calls w ++ flushes subsPerJobs l.
Proof.
  destruct l as [|r t]; intros Hwf Hres.
  - exists w. split; [reflexivity|]. simpl. rewrite app_nil_r. reflexivity.
  - apply Forall_cons in Hwf as [[Htr [b Hb]] Hwf].
    assert (Hd : delta_in subsPerJobs r = delta b r)
      by (unfold delta_in; rewrite Hb; reflexivity).
    cbn [flushes loop] in *. unfold mbind at 1. unfold M_bind.
    rewrite (iteration_first r b initial w eq_refl Hb).
    rewrite Hd in *.
    set (st' := {| lastRecruiter := id_recruiter r;
                   totalSubmissions := nadd (ofZ 0) (ofZ (total r));
                   points := nadd (ofZ 0) (delta b r);
                   results := ∅ |}).
    destruct (loop_fold_flushes t st' w Htr Hwf Hres) as (w' & Hrun & Hcalls & _).
    exists w'. split; assumption.
Qed.

End Loop.

(** ** The fold on a sorted stream *)

Lemma distinct_filter (P : option string → Prop) `{∀ x, Decision (P x)} l :
  distinct (filter P l) = filter P (distinct l).
Proof.
  induction l as [|x t IH]; [reflexivity|].
  rewrite filter_cons. destruct (decide (P x)) as [Hx|Hx]; simpl.
  - rewrite filter_cons_True by assumption. f_equal.
    rewrite IH, !list_filter_filter. apply list_filter_iff.
    intros y. cbv beta. tauto.
  - rewrite filter_cons_False by assumption.
    rewrite IH, list_filter_filter. apply list_filter_iff.
    intros y. simpl. split; [|intros [Hy _]; exact Hy].
    intros Hy. split; [assumption|]. intros ->. contradiction.
Qed.

Lemma elem_of_distinct l x : x ∈ distinct l ↔ x ∈ l.
Proof.
  induction l as [|y t IH]; simpl; [reflexivity|].
  rewrite !elem_of_cons, list_elem_of_filter, IH. cbv beta.
  destruct (decide (x = y)); tauto.
Qed.

Lemma NoDup_distinct l : NoDup (distinct l).
Proof.
  induction l as [|y t IH]; simpl; [constructor|].
  apply NoDup_cons. split.
  - rewrite list_elem_of_filter. tauto.
  - apply NoDup_filter, IH.
Qed.

(** [distinct] counts the different ids of the list. *)
Lemma length_distinct l :
  length (distinct l) = size (list_to_set l : gset (option string)).
Proof.
  rewrite <- (size_list_to_set (C := gset (option string)) (distinct l))
    by apply NoDup_distinct.
  f_equal. apply set_eq. intros x.
  rewrite !elem_of_list_to_set. apply elem_of_distinct.
Qed.

Section FoldSorted.

Context {num : Type} `{Number num}.
Variable subsPerJobs : gmap string (JobStat num).

Lemma call_for_cons_ne r t a :
  id_recruiter r ≠ a → call_for subsPerJobs (r :: t) a = call_for subsPerJobs t a.
Proof.
  intros Hne. unfold call_for, total_of, points_of.
  rewrite filter_cons_False by assumption. reflexivity.
Qed.

Lemma map_call_for_cons r t ids :
  id_recruiter r ∉ ids →
  map (call_for subsPerJobs (r :: t)) ids = map (call_for subsPerJobs t) ids.
Proof.
  induction ids as [|a ids IH]; intros Hnot; [reflexivity|].
  rewrite not_elem_of_cons in Hnot. destruct Hnot as [Hne Hnot]. simpl.
  rewrite call_for_cons_ne by assumption. rewrite IH by assumption. reflexivity.
Qed.

Lemma call_for_head r t :
  call_for subsPerJobs (r :: t) (id_recruiter r)
  = call_of (id_recruiter r)
      (total_of (id_recruiter r) t (nadd (ofZ 0) (ofZ (total r))))
      (points_of subsPerJobs (id_recruiter r) t
         (nadd (ofZ 0) (delta_in subsPerJobs r))).
Proof.
  unfold call_for, total_of, points_of.
  rewrite !filter_cons_True by reflexivity. reflexivity.
Qed.

Lemma fold_flushes_sorted l : ∀ a T P,
  sorted_by_recruiter l →
  Forall (fun r => id_leb a (id_recruiter r) = true) l →
  fold_flushes subsPerJobs a T P l
  = call_of a (total_of a l T) (points_of subsPerJobs a l P)
    :: map (call_for subsPerJobs l)
         (distinct (filter (fun b => b ≠ a) (map id_recruiter l))).
Proof.
  unfold sorted_by_recruiter.
  induction l as [|r t IH]; intros a T P Hsorted Hge; [reflexivity|].
  apply StronglySorted_inv in Hsorted as [Hsorted Hr].
  apply Forall_cons in Hge as [Har Hge].
  cbn [fold_flushes map].
  destruct (decide (id_recruiter r = a)) as [Heq|Hne].
  - rewrite (IH a _ _ Hsorted Hge).
    rewrite filter_cons_False by (intros Hn; apply Hn; exact Heq).
    unfold total_of, points_of.
    rewrite !filter_cons_True by assumption. cbn [fold_left].
    f_equal. symmetry. apply map_call_for_cons.
    rewrite elem_of_distinct, list_elem_of_filter. rewrite Heq. tauto.
  - assert (Hnone : Forall (fun x => id_recruiter x ≠ a) t).
    { rewrite Forall_forall in Hr |- *. intros x Hx Hxa.
      apply Hne. apply id_leb_antisym; [|assumption].
      rewrite <- Hxa. apply Hr. assumption. }
    rewrite (IH (id_recruiter r) _ _ Hsorted Hr).
    assert (Hfa : filter (fun r0 => id_recruiter r0 = a) t = []).
    { clear -Hnone. induction Hnone as [|x t Hx Ht IHt]; [reflexivity|].
      rewrite filter_cons_False by assumption. assumption. }
    assert (Hfm : filter (fun b => b ≠ a) (map id_recruiter t) = map id_recruiter t).
    { clear -Hnone. induction Hnone as [|x t Hx Ht IHt]; [reflexivity|].
      simpl. rewrite filter_cons_True by assumption. rewrite IHt. reflexivity. }
    assert (HT : total_of a (r :: t) T = T).
    { unfold total_of. rewrite filter_cons_False, Hfa by assumption. reflexivity. }
    assert (HP : points_of subsPerJobs a (r :: t) P = P).
    { unfold points_of. rewrite filter_cons_False, Hfa by assumption. reflexivity. }
    rewrite HT, HP.
    rewrite (filter_cons_True (fun b => b ≠ a)) by assumption.
    rewrite Hfm. cbn [distinct map].
    rewrite <- distinct_filter, call_for_head. f_equal. f_equal.
    symmetry. apply map_call_for_cons.
    rewrite elem_of_distinct, list_elem_of_filter. tauto.
Qed.

(** On a stream sorted by recruiter the fold flushes once per recruiter, with
    what the documents of that recruiter add up to. *)
Lemma flushes_sorted l :
  sorted_by_recruiter l →
  flushes subsPerJobs l
  = map (call_for subsPerJobs l) (distinct (map id_recruiter l)).
Proof.
  destruct l as [|r t]; intros Hsorted; [reflexivity|].
  apply StronglySorted_inv in Hsorted as [Hsorted Hr].
  cbn [flushes map distinct].
  rewrite (fold_flushes_sorted t _ _ _ Hsorted Hr).
  rewrite <- distinct_filter, call_for_head. f_equal.
  symmetry. apply map_call_for_cons.
  rewrite elem_of_distinct, list_elem_of_filter. tauto.
Qed.

Lemma length_flushes_sorted l :
  sorted_by_recruiter l →
  length (flushes subsPerJobs l)
  = size (list_to_set (map id_recruiter l) : gset (option string)).
Proof.
  intros Hsorted. rewrite (flushes_sorted l Hsorted), length_map.
  apply length_distinct.
Qed.

End FoldSorted.

(** On the real numbers, every flush of the fold carries a volume of at least
    one submission: the score is never computed at volume 0. *)
Lemma fold_flushes_volume (subsPerJobs : gmap string (JobStat R)) l :
  ∀ a (T P : R),
    (1 <= T)%R →
    Forall (fun r => 1 <= total r) l →
    Forall (fun c => (1 <= call_totalSubmissions c)%R)
      (fold_flushes subsPerJobs a T P l).
Proof.
  induction l as [|r t IH]; intros a T P HT Hl; cbn [fold_flushes].
  - constructor; [exact HT | constructor].
  - apply Forall_cons in Hl as [Hr Hl].
    assert (Hone : (1 <= IZR (total r))%R) by (apply IZR_le; assumption).
    destruct (decide (id_recruiter r = a)).
    + apply IH; [|assumption]. cbn [nadd ofZ RNumber]. lra.
    + constructor; [exact HT|].
      apply IH; [|assumption]. cbn [nadd ofZ RNumber]. lra.
Qed.

Lemma cursor_volume_positive from to subs
    (subsPerJobs : gmap string (JobStat R)) :
  Forall (fun c => (1 <= call_totalSubmissions c)%R)
    (flushes subsPerJobs (retrieveRecruitersSubmissions from to false subs)).
Proof.
  assert (Hpos : Forall (fun r => 1 <= total r)
                   (retrieveRecruitersSubmissions from to false subs)).
  { unfold retrieveRecruitersSubmissions. rewrite Forall_forall. intros r Hr.
    rewrite elem_of_sort_stage in Hr.
    pose proof (group_stage_positive false (filtered from to subs)) as Hall.
    rewrite Forall_forall in Hall. apply Hall. assumption. }
  destruct (retrieveRecruitersSubmissions from to false subs) as [|r t];
    [constructor|].
  apply Forall_cons in Hpos as [Hr Ht]. cbn [flushes].
  apply fold_flushes_volume; [|assumption].
  cbn [nadd ofZ RNumber]. apply IZR_le in Hr. lra.
Qed.

(** ** The summary *)

Lemma or_zero_Some n : or_zero (Some n) = n.
Proof. simpl. destruct (Z.eqb_spec n 0); congruence. Qed.

Lemma sumZ_app l1 l2 : sumZ (l1 ++ l2) = sumZ l1 + sumZ l2.
Proof. induction l1 as [|x l1 IH]; simpl; lia. Qed.

(** The object of lines 181-187 is read back under the keys it was written
    with: only [matchedCount] is found again at the next flush. *)
Lemma returned_results_counts outs :
  or_zero (returned_results outs !! "insertedCount") = 0
  ∧ or_zero (returned_results outs !! "modifiedCount") = 0
  ∧ or_zero (returned_results outs !! "deletedCount") = 0
  ∧ or_zero (returned_results outs !! "upsertedCount") = 0
  ∧ or_zero (returned_results outs !! "matchedCount")
    = sumZ (map (counter "matchedCount") outs).
Proof.
  unfold returned_results.
  destruct (last outs) as [o|] eqn:Hlast.
  - repeat split; try reflexivity.
    rewrite lookup_insert_ne by discriminate.
    rewrite lookup_insert_eq. apply or_zero_Some.
  - apply last_None in Hlast. subst outs. repeat split.
Qed.

Lemma fold_merge_results outs :
  fold_left merge_results outs ∅ = returned_results outs.
Proof.
  induction outs as [|o outs IH] using rev_ind; [reflexivity|].
  rewrite fold_left_app. cbn [fold_left]. rewrite IH.
  destruct (returned_results_counts outs) as (Hi & Hm & Hd & Hu & Hs).
  unfold merge_results. rewrite Hi, Hm, Hd, Hu, Hs.
  unfold returned_results. rewrite last_snoc.
  rewrite map_app, sumZ_app. cbn [map sumZ fold_right].
  unfold counter. rewrite !Z.add_0_l, Z.add_0_r. reflexivity.
Qed.

(** ** The run, when every update resolves *)

(** X18: when every recruiter of the cursor has a non-empty id and a budget, and
    every save resolves, the run makes one call per recruiter, in the order of
    the cursor, each with the volume and the net points of that recruiter, and
    returns the summary of the outcomes. *)
Theorem run_when_updates_resolve {num : Type} `{Number num}
    (saveResult : string → option (gmap string Z)) (from to : Z)
    (subs : list Submission) (w : World num) :
  let cursor := retrieveRecruitersSubmissions from to false subs in
  let subsPerJobs :=
    subsPerJobs_of (retrieveRecruitersSubmissions from to true subs) in
  let expected :=
    map (call_for subsPerJobs cursor) (distinct (map id_recruiter cursor)) in
  (∀ a, Some a ∈ map id_recruiter cursor →
        a ≠ "" ∧ is_Some (maxSlots w !! a) ∧ is_Some (saveResult a)) →
  ∃ w',
    computeRecruitersScore saveResult from to subs w
    = (w', Normal (returned_results (outcomes saveResult expected)))
    ∧ calls w' = calls w ++ expected
    ∧ length expected
      = size (list_to_set (map id_recruiter cursor) : gset (option string)).
Proof.
  intros cursor subsPerJobs expected Hagents.
  assert (Hsorted : sorted_by_recruiter cursor) by apply sort_stage_sorted.
  assert (Hsome : ∀ r, r ∈ cursor → ∃ a, id_recruiter r = Some a).
  { intros r Hr. unfold cursor, retrieveRecruitersSubmissions in Hr.
    rewrite elem_of_sort_stage in Hr.
    pose proof (group_stage_recruiters (filtered from to subs)) as Hall.
    rewrite Forall_forall in Hall. destruct (Hall r Hr) as [a Ha]. eauto. }
  assert (Hwf : Forall (well_formed subsPerJobs) cursor).
  { rewrite Forall_forall. intros r Hr. split.
    - destruct (Hsome r Hr) as [a Ha]. rewrite Ha. apply truthy_Some.
      apply Hagents. rewrite <- Ha. apply list_elem_of_fmap. eauto.
    - apply cursor_jobs_have_baseline. exact Hr. }
  assert (Hflush : flushes subsPerJobs cursor = expected)
    by (apply flushes_sorted; assumption).
  assert (Hres : Forall (resolves saveResult w) (flushes subsPerJobs cursor)).
  { rewrite Hflush. unfold expected. rewrite Forall_forall. intros c Hc.
    apply list_elem_of_fmap in Hc as (a & -> & Ha).
    rewrite elem_of_distinct in Ha.
    pose proof Ha as Hin. apply list_elem_of_fmap in Hin as (r & Hr & Hrin).
    destruct (Hsome r Hrin) as [x Hx]. rewrite Hx in Hr. subst a.
    exists x. split; [reflexivity|]. apply Hagents. exact Ha. }
  destruct (loop_flushes saveResult subsPerJobs cursor w Hwf Hres)
    as (w' & Hrun & Hcalls).
  exists w'. unfold computeRecruitersScore. fold cursor. fold subsPerJobs.
  rewrite Hrun, Hcalls, Hflush, fold_merge_results.
  split; [reflexivity|]. split; [reflexivity|].
  unfold expected. rewrite length_map. apply length_distinct.
Qed.

(** ** The run on an empty stream *)

(** C10: when no submission passes the filter, the run reads and writes no
    budget, calls [computeAndSaveScore] for nobody and resolves with the empty
    object, which has none of the five counters. *)
Theorem C10_empty_stream_returns_empty_object {num : Type} `{Number num}
    (saveResult : string → option (gmap string Z)) (from to : Z)
    (subs : list Submission) (w : World num) :
  retrieveRecruitersSubmissions from to false subs = [] →
  computeRecruitersScore saveResult from to subs w = (w, Normal ∅).
Proof.
  intros Hempty. unfold computeRecruitersScore. rewrite Hempty. reflexivity.
Qed.

Lemma C10_witness :
  computeRecruitersScore Sample.save_ok 0 10
    [Sample.not_inevitable "j" "a" true] Sample.budgets_abc
  = (Sample.budgets_abc, Normal ∅).
Proof.
  apply (C10_empty_stream_returns_empty_object Sample.save_ok 0 10
           [Sample.not_inevitable "j" "a" true] Sample.budgets_abc).
  reflexivity.
Defined.

(** ** Runs on doubles *)

(** Three recruiters on one job, every budget present, every save resolving
    with [matchedCount] 1 and [modifiedCount] 1: three calls are made, and the
    run returns [matchedCount] 3 but [modified] 1. *)
Example run_three_agents :
  map call_recruiter
    (calls (computeRecruitersScore Sample.save_ok 0 10 Sample.three_agents
              Sample.budgets_abc).1)
  = [Some "a"; Some "b"; Some "c"]
  ∧ (computeRecruitersScore Sample.save_ok 0 10 Sample.three_agents
       Sample.budgets_abc).2
    = Normal (<["inserted" := 0]> (<["matchedCount" := 3]> (<["modified" := 1]>
              (<["deleted" := 0]> (<["upserted" := 0]> ∅))))).
Proof. split; reflexivity. Qed.

(** C1, on the code: the five counters are written under the keys [inserted],
    [matchedCount], [modified], [deleted], [upserted] and read back under
    [insertedCount], [matchedCount], [modifiedCount], [deletedCount],
    [upsertedCount]. With three flushes whose outcomes each have
    [modifiedCount] 1, the sum is 3 and the run returns [modified] 1; only
    [matchedCount] is the sum. *)
Theorem C1_counters_keep_last_outcome :
  let run := computeRecruitersScore Sample.save_ok 0 10 Sample.three_agents
               Sample.budgets_abc in
  ∃ summary,
    run.2 = Normal summary
    ∧ sumZ (map (counter "modifiedCount") (outcomes Sample.save_ok (calls run.1))) = 3
    ∧ summary !! "modified" = Some 1
    ∧ sumZ (map (counter "matchedCount") (outcomes Sample.save_ok (calls run.1))) = 3
    ∧ summary !! "matchedCount" = Some 3.
Proof.
  eexists. split; [reflexivity|].
  repeat split; reflexivity.
Qed.

(** C2, on the code: recruiter ["b"] has no budget. [computeAndSaveScore] logs
    and returns [undefined], and the loop then reads [insertedCount] of
    [undefined]: the run throws, recruiter ["c"] is never processed and no
    summary is returned. The same happens when the save of ["b"] rejects. *)
Theorem C2_undefined_update_aborts_run :
  let missing := computeRecruitersScore Sample.save_ok 0 10 Sample.three_agents
                   Sample.budgets_ac in
  let rejected := computeRecruitersScore Sample.save_fails_b 0 10
                    Sample.three_agents Sample.budgets_abc in
  missing.2 = Throw (TypeError "Cannot read property 'insertedCount' of undefined")
  ∧ map call_recruiter (calls missing.1) = [Some "a"; Some "b"]
  ∧ maxSlots missing.1 !! "c" = maxSlots Sample.budgets_ac !! "c"
  ∧ rejected.2 = Throw (TypeError "Cannot read property 'insertedCount' of undefined")
  ∧ map call_recruiter (calls rejected.1) = [Some "a"; Some "b"]
  ∧ maxSlots rejected.1 !! "c" = maxSlots Sample.budgets_abc !! "c".
Proof. repeat split; reflexivity. Qed.

(** C4, on the code: the cursor is sorted and has three recruiters, and two
    flushes are made: the one of ["b"], who has no budget, ends the run
    before the flushes of the later recruiters. *)
Theorem C4_flushes_stop_at_undefined_update :
  let cursor := retrieveRecruitersSubmissions 0 10 false Sample.three_agents in
  let run := computeRecruitersScore Sample.save_ok 0 10 Sample.three_agents
               Sample.budgets_ac in
  sorted_by_recruiter cursor
  ∧ size (list_to_set (map id_recruiter cursor) : gset (option string)) = 3%nat
  ∧ length (calls run.1) = 2%nat.
Proof.
  split; [apply sort_stage_sorted|].
  split; reflexivity.
Qed.

(** * More on the aggregation *)

Lemma has_window_entry_existsb from to s :
  has_window_entry from to s = existsb (in_window from to) (history s).
Proof.
  unfold has_window_entry, historyArr.
  induction (history s) as [|h t IH]; simpl; [reflexivity|].
  destruct (in_window from to h); simpl; [reflexivity | exact IH].
Qed.

Lemma existsb_weaken {A} (f g : A → bool) l :
  (∀ x, f x = true → g x = true) → existsb f l = true → existsb g l = true.
Proof.
  intros Hfg. induction l as [|x l IH]; simpl; [congruence|].
  destruct (f x) eqn:Hf; simpl.
  - intros _. rewrite (Hfg x Hf). reflexivity.
  - intros Hl. rewrite (IH Hl). apply orb_true_r.
Qed.

Lemma coarse_then_exact from to s :
  coarse_match from to s && has_window_entry from to s = counted from to s.
Proof.
  rewrite has_window_entry_existsb. unfold coarse_match, counted.
  destruct (review_inevitable s); [rewrite andb_false_r; reflexivity|].
  rewrite andb_true_r.
  destruct (existsb (in_window from to) (history s)) eqn:Hw;
    [|apply andb_false_r].
  rewrite andb_true_r.
  assert (Hparts : ∀ h, in_window from to h = true →
            is_reviewed h = true ∧ (from <=? at_time h) = true
            ∧ (at_time h <? to) = true).
  { intros h Hin. unfold in_window in Hin.
    apply andb_prop in Hin as [Hin ?]. apply andb_prop in Hin as [? ?]. auto. }
  rewrite (existsb_weaken (in_window from to) is_reviewed _
             (fun h Hh => proj1 (Hparts h Hh)) Hw).
  rewrite (existsb_weaken (in_window from to) (fun h => from <=? at_time h) _
             (fun h Hh => proj1 (proj2 (Hparts h Hh))) Hw).
  rewrite (existsb_weaken (in_window from to) (fun h => at_time h <? to) _
             (fun h Hh => proj2 (proj2 (Hparts h Hh))) Hw).
  reflexivity.
Qed.

(** The four shared stages keep the counted submissions. *)
Lemma filtered_as_counted (from to : Z) (subs : list Submission) :
  filtered from to subs
  = map (project from to) (List.filter (counted from to) subs).
Proof.
  unfold filtered. f_equal.
  induction subs as [|s subs IH]; [reflexivity|].
  cbn [List.filter]. rewrite <- (coarse_then_exact from to s).
  destruct (coarse_match from to s); cbn [andb List.filter].
  - destruct (has_window_entry from to s); rewrite IH; reflexivity.
  - exact IH.
Qed.

Lemma counted_spec from to s :
  counted from to s = true
  ↔ review_inevitable s = None
    ∧ ∃ h, h ∈ history s ∧ status h = "ExpertReviewed"
           ∧ from <= at_time h < to.
Proof.
  unfold counted. destruct (review_inevitable s).
  - split; [discriminate | intros [[=] _]].
  - rewrite existsb_exists. split.
    + intros (h & Hin & Hw). split; [reflexivity|]. exists h.
      unfold in_window, is_reviewed in Hw.
      apply andb_prop in Hw as [Hw Hto]. apply andb_prop in Hw as [Hst Hfrom].
      apply String.eqb_eq in Hst.
      split; [apply list_elem_of_In; assumption|]. split; [assumption|]. lia.
    + intros (_ & h & Hin & Hst & Hfrom & Hto). exists h.
      split; [apply list_elem_of_In; assumption|].
      unfold in_window, is_reviewed. rewrite Hst, String.eqb_refl. simpl.
      apply andb_true_intro. split; lia.
Qed.

(** X1: the first [$match] only thins the collection out. After the exact
    [$filter] and the second [$match], the documents kept are those of the
    submissions with no field [review.inevitable] and with an expert review
    whose own time is inside [from, to): the two bounds of the first stage,
    which different entries may meet, change nothing. *)
Theorem filtered_counts_exact_window (from to : Z) (subs : list Submission) :
  filtered from to subs
  = map (project from to) (List.filter (counted from to) subs)
  ∧ ∀ s, s ∈ List.filter (counted from to) subs
         ↔ s ∈ subs ∧ review_inevitable s = None
           ∧ ∃ h, h ∈ history s ∧ status h = "ExpertReviewed"
                  ∧ from <= at_time h < to.
Proof.
  split; [apply filtered_as_counted|].
  intros s. rewrite list_elem_of_In, List.filter_In, counted_spec.
  rewrite <- list_elem_of_In. reflexivity.
Qed.

(** The first stage alone is not exact: it lets through a submission that
    was expert-reviewed before the window and only submitted inside it. *)
Example coarse_match_is_not_exact :
  let s := {| job := "j"; recruiter := "a"; review_pass := Some true;
              review_inevitable := None;
              history := [ {| status := "ExpertReviewed"; at_time := -5 |};
                           {| status := "Submitted"; at_time := 5 |};
                           {| status := "Rejected"; at_time := 20 |} ] |} in
  coarse_match 0 10 s = true ∧ counted 0 10 s = false
  ∧ retrieveRecruitersSubmissions 0 10 true [s] = [].
Proof. repeat split. Qed.

(** ** The groups *)

Lemma filtered_pass_bit from to subs :
  Forall (fun d => 0 <= p_pass d <= 1) (filtered from to subs).
Proof.
  unfold filtered. rewrite Forall_forall. intros d Hd.
  apply list_elem_of_fmap in Hd as (s & -> & _). simpl.
  destruct (review_pass s) as [[|]|]; lia.
Qed.

Lemma group_add_bounds j r p groups :
  0 <= p <= 1 →
  Forall (fun g => 1 <= total g ∧ 0 <= pass g <= total g) groups →
  Forall (fun g => 1 <= total g ∧ 0 <= pass g <= total g)
    (group_add j r p groups).
Proof.
  intros Hp. induction 1 as [|g rest Hg Hrest IH]; simpl.
  - repeat constructor; simpl; lia.
  - destruct (decide (id_job g = j ∧ id_recruiter g = r)).
    + constructor; [simpl; lia | assumption].
    + constructor; assumption.
Qed.

Lemma group_stage_bounds global docs :
  Forall (fun d => 0 <= p_pass d <= 1) docs →
  Forall (fun g => 1 <= total g ∧ 0 <= pass g <= total g)
    (group_stage global docs).
Proof.
  unfold group_stage.
  set (step := fun groups d =>
    group_add (p_job d) (if global then None else Some (p_recruiter d))
      (p_pass d) groups).
  enough (Hgen : ∀ acc,
    Forall (fun d => 0 <= p_pass d <= 1) docs →
    Forall (fun g => 1 <= total g ∧ 0 <= pass g <= total g) acc →
    Forall (fun g => 1 <= total g ∧ 0 <= pass g <= total g)
      (fold_left step docs acc))
    by (intros Hdocs; apply Hgen; [assumption | constructor]).
  induction docs as [|d docs IH]; intros acc Hdocs Hacc; simpl; [assumption|].
  apply Forall_cons in Hdocs as [Hd Hdocs].
  apply IH; [assumption|]. apply group_add_bounds; assumption.
Qed.

Lemma sort_insert_Permutation g l : sort_insert g l ≡ₚ g :: l.
Proof.
  induction l as [|h t IH]; simpl; [reflexivity|].
  destruct (recruiter_leb g h); [reflexivity|].
  rewrite IH. apply Permutation_swap.
Qed.

Lemma sort_stage_Permutation l : sort_stage l ≡ₚ l.
Proof.
  induction l as [|g l IH]; simpl; [reflexivity|].
  rewrite sort_insert_Permutation, IH. reflexivity.
Qed.

Lemma retrieve_Permutation from to global subs :
  retrieveRecruitersSubmissions from to global subs
  ≡ₚ group_stage global (filtered from to subs).
Proof.
  unfold retrieveRecruitersSubmissions. destruct global; [reflexivity|].
  apply sort_stage_Permutation.
Qed.

(** X2: in both aggregations every group counts at least one submission, and
    its passes are between 0 and its total. *)
Theorem groups_within_bounds (from to : Z) (global : bool)
    (subs : list Submission) :
  Forall (fun g => 1 <= total g ∧ 0 <= pass g <= total g)
    (retrieveRecruitersSubmissions from to global subs).
Proof.
  rewrite retrieve_Permutation.
  apply group_stage_bounds, filtered_pass_bit.
Qed.

Lemma group_add_keys j r p groups :
  NoDup (map group_key groups) →
  NoDup (map group_key (group_add j r p groups))
  ∧ ∀ k, k ∈ map group_key (group_add j r p groups)
         ↔ k = (j, r) ∨ k ∈ map group_key groups.
Proof.
  induction groups as [|g rest IH]; intros Hnd; simpl.
  - split; [apply NoDup_singleton|].
    intros k. rewrite list_elem_of_singleton, elem_of_nil. tauto.
  - simpl in Hnd. apply NoDup_cons in Hnd as [Hnotin Hnd].
    destruct (decide (id_job g = j ∧ id_recruiter g = r)) as [[Hj Hr]|Hne]; simpl.
    + assert (Hk : group_key g = (j, r)) by (unfold group_key; congruence).
      unfold group_key at 1 3. simpl. rewrite <- Hk.
      split; [apply NoDup_cons; auto|].
      intros k. rewrite elem_of_cons. tauto.
    + destruct (IH Hnd) as (IH1 & IH2).
      assert (Hk : group_key g ≠ (j, r)).
      { unfold group_key. intros [= Hj Hr]. apply Hne. auto. }
      split.
      * apply NoDup_cons. split; [|assumption]. rewrite IH2. tauto.
      * intros k. rewrite !elem_of_cons, IH2. tauto.
Qed.

Lemma group_stage_keys global docs :
  NoDup (map group_key (group_stage global docs))
  ∧ ∀ k, k ∈ map group_key (group_stage global docs)
         ↔ k ∈ map (fun d => (p_job d,
                              if global then None else Some (p_recruiter d)))
                docs.
Proof.
  unfold group_stage.
  set (key := fun d : Projected =>
    (p_job d, if global then None else Some (p_recruiter d))).
  set (step := fun groups d =>
    group_add (p_job d) (if global then None else Some (p_recruiter d))
      (p_pass d) groups).
  enough (Hgen : ∀ acc, NoDup (map group_key acc) →
    NoDup (map group_key (fold_left step docs acc))
    ∧ ∀ k, k ∈ map group_key (fold_left step docs acc)
           ↔ k ∈ map group_key acc ∨ k ∈ map key docs).
  { destruct (Hgen [] (NoDup_nil_2)) as [Hnd Hin]. split; [assumption|].
    intros k. rewrite Hin. simpl. rewrite elem_of_nil. tauto. }
  induction docs as [|d docs IH]; intros acc Hacc; simpl.
  - split; [assumption|]. intros k. rewrite elem_of_nil. tauto.
  - destruct (group_add_keys (p_job d)
                (if global then None else Some (p_recruiter d)) (p_pass d)
                acc Hacc) as [Hnd Hin].
    destruct (IH (step acc d) Hnd) as [Hnd' Hin'].
    split; [assumption|].
    intros k. rewrite Hin'. unfold step at 1. rewrite Hin, elem_of_cons.
    unfold key at 2. tauto.
Qed.

(** X3: no [_id] comes twice. The cursor has one document per pair of a
    recruiter and a job, and the global aggregation one per job. *)
Theorem groups_have_distinct_ids (from to : Z) (global : bool)
    (subs : list Submission) :
  NoDup (map group_key (retrieveRecruitersSubmissions from to global subs)).
Proof.
  rewrite retrieve_Permutation. apply group_stage_keys.
Qed.

Lemma sumZ_Permutation l k : l ≡ₚ k → sumZ l = sumZ k.
Proof. induction 1; simpl; lia. Qed.

Lemma sumZ_cons x l : sumZ (x :: l) = x + sumZ l.
Proof. reflexivity. Qed.

Lemma group_add_sums j r p groups :
  sumZ (map total (group_add j r p groups)) = sumZ (map total groups) + 1
  ∧ sumZ (map pass (group_add j r p groups)) = sumZ (map pass groups) + p.
Proof.
  induction groups as [|g rest [IHt IHp]]; simpl; [lia|].
  destruct (decide (id_job g = j ∧ id_recruiter g = r)); simpl; lia.
Qed.

Lemma group_stage_totals global docs :
  sumZ (map total (group_stage global docs)) = Z.of_nat (length docs)
  ∧ sumZ (map pass (group_stage global docs)) = sumZ (map p_pass docs).
Proof.
  unfold group_stage.
  set (step := fun groups d =>
    group_add (p_job d) (if global then None else Some (p_recruiter d))
      (p_pass d) groups).
  enough (Hgen : ∀ acc,
    sumZ (map total (fold_left step docs acc))
    = sumZ (map total acc) + Z.of_nat (length docs)
    ∧ sumZ (map pass (fold_left step docs acc))
      = sumZ (map pass acc) + sumZ (map p_pass docs)).
  { destruct (Hgen []) as [Ht Hp]. rewrite Ht, Hp. simpl. lia. }
  induction docs as [|d docs IH]; intros acc.
  - simpl. lia.
  - cbn [fold_left length map].
    destruct (IH (step acc d)) as [Ht Hp]. rewrite Ht, Hp.
    destruct (group_add_sums (p_job d)
                (if global then None else Some (p_recruiter d)) (p_pass d) acc)
      as [Ht' Hp'].
    subst step. cbv beta. rewrite Ht', Hp', sumZ_cons. lia.
Qed.

(** X4: each aggregation counts every kept submission once. The totals of the
    groups add up to the number of submissions that pass the filter, and their
    passes to the number of those whose [review.pass] is [true], whether the
    groups are per job or per recruiter and job. *)
Theorem groups_count_every_submission_once (from to : Z) (global : bool)
    (subs : list Submission) :
  sumZ (map total (retrieveRecruitersSubmissions from to global subs))
  = Z.of_nat (length (List.filter (counted from to) subs))
  ∧ sumZ (map pass (retrieveRecruitersSubmissions from to global subs))
    = Z.of_nat (length (List.filter
                          (fun s => counted from to s
                                    && bool_decide (review_pass s = Some true))
                          subs)).
Proof.
  rewrite (sumZ_Permutation _ _
             (Permutation_map total (retrieve_Permutation from to global subs))).
  rewrite (sumZ_Permutation _ _
             (Permutation_map pass (retrieve_Permutation from to global subs))).
  destruct (group_stage_totals global (filtered from to subs)) as [Ht Hp].
  rewrite Ht, Hp, filtered_as_counted, length_map.
  split; [reflexivity|]. clear Ht Hp.
  induction subs as [|s subs IH]; [reflexivity|].
  cbn [List.filter]. destruct (counted from to s); cbn [andb]; [|exact IH].
  cbn [map]. rewrite sumZ_cons, IH. cbn [project p_pass].
  destruct (bool_decide_reflect (review_pass s = Some true)) as [Hs|Hs].
  - rewrite Hs. cbn [length]. lia.
  - destruct (review_pass s) as [[|]|]; [congruence | lia | lia].
Qed.

(** X5: the cursor comes out of the [$sort] ascending by recruiter, so the
    documents of one recruiter follow each other. *)
Theorem cursor_is_sorted (from to : Z) (subs : list Submission) :
  sorted_by_recruiter (retrieveRecruitersSubmissions from to false subs).
Proof. apply sort_stage_sorted. Qed.

(** ** The baseline and the cursor *)

Lemma docs_total_positive j docs :
  1 <= docs_total j docs ↔ j ∈ map p_job docs.
Proof.
  unfold docs_total. induction docs as [|d docs IH]; simpl.
  - rewrite elem_of_nil. lia.
  - rewrite elem_of_cons.
    assert (Hnn : 0 <= sumZ (map (fun d => if decide (p_job d = j) then 1 else 0) docs)).
    { clear. induction docs as [|d docs IH]; simpl; [lia|].
      destruct (decide (p_job d = j)); lia. }
    destruct (decide (p_job d = j)) as [Heq|Hne].
    + split; [auto | lia].
    + rewrite <- IH. split; [intros; right; lia | intros [Heq|Hpos]; [congruence | lia]].
Qed.

Lemma group_stage_jobs global docs j :
  j ∈ map id_job (group_stage global docs) ↔ j ∈ map p_job docs.
Proof.
  rewrite <- docs_total_positive.
  destruct (group_stage_sums j global docs) as [<- _].
  split.
  - apply over_job_total_positive, group_stage_positive.
  - intros Hpos.
    destruct (decide (j ∈ map id_job (group_stage global docs))) as [Hin|Hnot];
      [assumption|].
    rewrite (over_job_absent j total _ Hnot) in Hpos. lia.
Qed.

(** X6: [subsPerJobs] has an entry for a job exactly when the cursor has a
    document of that job, so the lookup [subsPerJobs[job]] of line 194 always
    finds its baseline. *)
Theorem baseline_covers_cursor_jobs {num : Type} `{Number num}
    (from to : Z) (subs : list Submission) (j : string) :
  is_Some (subsPerJobs_of (num := num)
             (retrieveRecruitersSubmissions from to true subs) !! j)
  ↔ j ∈ map id_job (retrieveRecruitersSubmissions from to false subs).
Proof.
  rewrite subsPerJobs_of_dom.
  rewrite (Permutation_map id_job (retrieve_Permutation from to false subs)).
  unfold retrieveRecruitersSubmissions. rewrite !group_stage_jobs. reflexivity.
Qed.

Lemma over_job_pass_bounds j l :
  Forall (fun g => 1 <= total g ∧ 0 <= pass g <= total g) l →
  0 <= over_job pass j l <= over_job total j l.
Proof.
  induction 1 as [|g l Hg Hl IH]; [rewrite !over_job_nil; lia|].
  rewrite !over_job_cons. destruct (decide (id_job g = j)); lia.
Qed.

(** X7: every approval ratio of the baseline is a proportion, between 0 and
    1, and the total it divides by is at least 1. *)
Theorem approval_ratio_is_a_proportion (from to : Z) (subs : list Submission)
    (j : string) (baseline : JobStat R) :
  subsPerJobs_of (retrieveRecruitersSubmissions from to true subs) !! j
  = Some baseline →
  1 <= job_total baseline
  ∧ (0 <= approvalRatio baseline <= 1)%R.
Proof.
  intros Hb.
  assert (Hin : j ∈ map id_job (retrieveRecruitersSubmissions from to true subs)).
  { apply (subsPerJobs_of_dom (num := R)). rewrite Hb. eauto. }
  unfold retrieveRecruitersSubmissions in *.
  destruct (subsPerJobs_of_lookup _ _ _ (group_stage_global_keys _) Hb)
    as (Ht & Hp & Hr).
  pose proof (over_job_total_positive j _
                (group_stage_positive true (filtered from to subs)) Hin) as Hpos.
  pose proof (over_job_pass_bounds j _
                (group_stage_bounds true _ (filtered_pass_bit from to subs)))
    as Hbounds.
  rewrite <- Ht in Hpos, Hbounds. rewrite <- Hp in Hbounds.
  split; [assumption|].
  rewrite Hr. cbn [ndiv ofZ RNumber].
  assert (0 < IZR (job_total baseline))%R by (apply IZR_lt; lia).
  assert (0 <= IZR (job_pass baseline))%R by (apply IZR_le; lia).
  assert (IZR (job_pass baseline) <= IZR (job_total baseline))%R
    by (apply IZR_le; lia).
  split.
  - apply Rmult_le_pos; [assumption|]. apply Rlt_le, Rinv_0_lt_compat. assumption.
  - apply (Rmult_le_reg_r (IZR (job_total baseline))); [assumption|].
    unfold Rdiv. rewrite Rmult_assoc, Rinv_l by lra. lra.
Qed.

Lemma approval_ratio_witness :
  1 <= job_total Sample.half ∧ (0 <= approvalRatio Sample.half <= 1)%R.
Proof.
  apply (approval_ratio_is_a_proportion 0 10 Sample.scenario_D "j" Sample.half).
  reflexivity.
Defined.

(** * More on the score and the budget *)

Section ScoreSign.

Local Open Scope R_scope.

Lemma spec_rawScore_sign ts p :
  0 < ts →
  (0 < p → 0 <= spec_rawScore ts p) ∧ (p <= 0 → spec_rawScore ts p <= 0).
Proof.
  intros Hts. unfold spec_rawScore.
  pose proof (R_sqrt.sqrt_lt_R0 ts Hts) as Hs.
  pose proof (Rinv_0_lt_compat _ Hs) as His.
  pose proof (Rinv_0_lt_compat _ Hts) as Hit.
  destruct (Rlt_dec 0 p); unfold Rdiv; split; intros Hp; try lra.
  - apply Rmult_le_pos; lra.
  - assert (0 <= p ^ 2 * / ts) by (apply Rmult_le_pos; [nra | lra]). lra.
Qed.

End ScoreSign.

Lemma score_sign (totalSubmissions netPoints : R) :
  (0 < totalSubmissions)%R →
  ((0 < netPoints)%R → (0 <= score totalSubmissions netPoints)%R)
  ∧ ((netPoints <= 0)%R → (score totalSubmissions netPoints <= 0)%R)
  ∧ (netPoints = 0%R → score totalSubmissions netPoints = 0%R).
Proof.
  intros Hts. rewrite score_R_unfold.
  destruct (spec_rawScore_sign totalSubmissions netPoints Hts) as [Hpos Hneg].
  pose proof (Rround_integer 0) as Hzero.
  split; [|split].
  - intros Hp. apply Rle_trans with (Rround 0); [rewrite Hzero; lra|].
    apply Rround_le. auto.
  - intros Hp. apply Rle_trans with (Rround 0); [|rewrite Hzero; lra].
    apply Rround_le. auto.
  - intros ->. apply Rle_antisym.
    + apply Rle_trans with (Rround 0); [|rewrite Hzero; lra].
      apply Rround_le, Hneg. lra.
    + apply Rle_trans with (Rround 0); [rewrite Hzero; lra|].
      apply Rround_le. unfold spec_rawScore.
      destruct (Rlt_dec 0 0) as [Hlt|_]; [lra|].
      unfold Rdiv. rewrite pow_i by lia. lra.
Qed.

(** X8: for a positive volume the score has the sign of the net points:
    never negative when they are positive, never positive when they are zero or
    negative, and exactly 0 when they are 0. *)
Theorem score_has_sign_of_points (totalSubmissions netPoints : R) :
  (0 < totalSubmissions)%R →
  ((0 < netPoints)%R → (0 <= score totalSubmissions netPoints)%R)
  ∧ ((netPoints <= 0)%R → (score totalSubmissions netPoints <= 0)%R)
  ∧ (netPoints = 0%R → score totalSubmissions netPoints = 0%R).
Proof. apply score_sign. Qed.

Lemma score_sign_witness :
  ((0 < -3)%R → (0 <= score 4%R (-3)%R)%R)
  ∧ ((-3 <= 0)%R → (score 4%R (-3)%R <= 0)%R)
  ∧ ((-3)%R = 0%R → score 4%R (-3)%R = 0%R).
Proof. apply (score_has_sign_of_points 4%R (-3)%R). lra. Defined.

(** X9: a recruiter with at least one slot gains none with net points at or
    below zero and loses none with positive net points; with net points 0 the
    budget is written back unchanged. *)
Theorem budget_moves_with_points (saveResult : string → option (gmap string Z))
    (w : World R) (id : string) (totalSubmissions netPoints current : R)
    (outcome : gmap string Z) :
  (0 < totalSubmissions)%R →
  maxSlots w !! id = Some current →
  (1 <= current)%R →
  saveResult id = Some outcome →
  ∃ new,
    maxSlots (computeAndSaveScore saveResult (Some id) totalSubmissions
                netPoints w).1 !! id = Some new
    ∧ ((0 < netPoints)%R → (current <= new)%R)
    ∧ ((netPoints <= 0)%R → (1 <= new <= current)%R)
    ∧ (netPoints = 0%R → new = current).
Proof.
  intros Hts Hm Hcur Ho.
  rewrite (computeAndSaveScore_saved saveResult w id _ _ current outcome Hm Ho).
  cbn [fst maxSlots]. rewrite lookup_insert_eq. eexists. split; [reflexivity|].
  cbn [Math_max nadd ofZ RNumber].
  destruct (score_sign totalSubmissions netPoints Hts)
    as (Hpos & Hneg & Hzero).
  split; [|split].
  - intros Hp. specialize (Hpos Hp).
    apply Rle_trans with (current + score totalSubmissions netPoints)%R;
      [lra | apply Rmax_r].
  - intros Hp. specialize (Hneg Hp). split; [apply Rmax_l|].
    apply Rmax_lub; lra.
  - intros Hp. rewrite (Hzero Hp), Rplus_0_r. apply Rmax_right. assumption.
Qed.

Lemma budget_moves_witness :
  ∃ new,
    maxSlots (computeAndSaveScore Sample.save_ok (Some "a") 4%R (-3)%R
                Sample.budgets_R).1 !! "a" = Some new
    ∧ ((0 < -3)%R → (1 <= new)%R)
    ∧ ((-3 <= 0)%R → (1 <= new <= 1)%R)
    ∧ ((-3)%R = 0%R → new = 1%R).
Proof.
  apply (budget_moves_with_points Sample.save_ok Sample.budgets_R "a" 4%R
           (-3)%R 1%R Sample.updated_one); try reflexivity; lra.
Defined.

(** * More on the run *)

Section Frame.

Context {num : Type} `{Number num}.
Variable saveResult : string → option (gmap string Z).

Lemma computeAndSaveScore_cases (w : World num) a T P :
  (∃ id current outcome,
      a = Some id ∧ maxSlots w !! id = Some current
      ∧ saveResult id = Some outcome
      ∧ computeAndSaveScore saveResult a T P w
        = ({| maxSlots := <[id := Math_max (ofZ 1) (nadd current (score T P))]>
                            (maxSlots w);
              calls := calls w ++ [call_of a T P] |},
           Normal (Some outcome)))
  ∨ computeAndSaveScore saveResult a T P w
    = ({| maxSlots := maxSlots w; calls := calls w ++ [call_of a T P] |},
       Normal None).
Proof.
  destruct a as [id|].
  - destruct (maxSlots w !! id) as [m|] eqn:Hm.
    + destruct (saveResult id) as [o|] eqn:Ho.
      * left. exists id, m, o. repeat split; try assumption.
        apply computeAndSaveScore_saved; assumption.
      * right. apply computeAndSaveScore_undefined. intros id' [= <-]. auto.
    + right. apply computeAndSaveScore_undefined. intros id' [= <-]. auto.
  - right. apply computeAndSaveScore_undefined. intros id' [=].
Qed.

End Frame.

Lemma computeAndSaveScore_logs {num : Type} `{Number num}
    (saveResult : string → option (gmap string Z)) (w : World num) a T P :
  ∃ w' updates,
    computeAndSaveScore saveResult a T P w = (w', Normal updates)
    ∧ calls w' = calls w ++ [call_of a T P].
Proof.
  destruct (computeAndSaveScore_cases saveResult w a T P)
    as [(id & m & o & -> & Hm & Ho & Hrun)|Hrun];
    rewrite Hrun; eexists _, _; split; reflexivity.
Qed.

(** X10: [computeAndSaveScore] never throws: the [catch] turns every failure
    into [undefined]. It logs one call, creates no [Preference] document,
    leaves the budget of every other recruiter as it was, and writes nothing
    at all when it returns [undefined]. *)
Theorem computeAndSaveScore_touches_one_budget {num : Type} `{Number num}
    (saveResult : string → option (gmap string Z)) (w : World num)
    (recruiterId : option string) (totalSubmissions netPoints : num) :
  ∃ w' updates,
    computeAndSaveScore saveResult recruiterId totalSubmissions netPoints w
    = (w', Normal updates)
    ∧ calls w' = calls w ++ [call_of recruiterId totalSubmissions netPoints]
    ∧ dom (maxSlots w') = dom (maxSlots w)
    ∧ (∀ k, recruiterId ≠ Some k → maxSlots w' !! k = maxSlots w !! k)
    ∧ (updates = None → maxSlots w' = maxSlots w).
Proof.
  destruct (computeAndSaveScore_cases saveResult w recruiterId totalSubmissions
              netPoints) as [(id & m & o & -> & Hm & Ho & Hrun)|Hrun];
    rewrite Hrun; eexists _, _; (split; [reflexivity|]); cbn [calls maxSlots].
  - split; [reflexivity|]. split; [|split].
    + apply dom_insert_lookup_L. rewrite Hm. eauto.
    + intros k Hk. apply lookup_insert_ne. congruence.
    + discriminate.
  - repeat split; reflexivity.
Qed.

Section LoopInvariants.

Context {num : Type} `{Number num}.
Variable saveResult : string → option (gmap string Z).
Variable subsPerJobs : gmap string (JobStat num).

(** One turn of the loop either leaves the world as it is or makes the one
    call that flushes the remembered recruiter; the recruiter it remembers
    next is the one it had or the one of the document. *)
Lemma iteration_outcome recJobSubs (st : LoopState num) w :
  ∃ w' r,
    iteration saveResult subsPerJobs recJobSubs st w = (w', r)
    ∧ (w' = w
       ∨ (truthy (lastRecruiter st) = true
          ∧ ∃ updates,
              computeAndSaveScore saveResult (lastRecruiter st)
                (totalSubmissions st) (points st) w = (w', Normal updates)))
    ∧ ∀ st', r = Normal st' →
        lastRecruiter st' = lastRecruiter st
        ∨ lastRecruiter st' = recJobSubs ≫= id_recruiter.
Proof.
  destruct (truthy (lastRecruiter st)) eqn:Hlast.
  - destruct (decide (recJobSubs ≫= id_recruiter = lastRecruiter st)) as [Heq|Hne].
    + unfold iteration. rewrite Hlast.
      destruct (decide (lastRecruiter st ≠ recJobSubs ≫= id_recruiter));
        [congruence|].
      unfold mbind, M_bind, mret, M_ret, throw.
      destruct recJobSubs as [r|]; cbn [lastRecruiter];
        [destruct (subsPerJobs !! id_job r)|];
        eexists _, _; (split; [reflexivity|]); (split; [left; reflexivity|]);
        intros st' [= <-]; left; reflexivity.
    + destruct (computeAndSaveScore_cases saveResult w (lastRecruiter st)
                  (totalSubmissions st) (points st))
        as [(id & m & o & Hid & Hm & Ho & Hrun)|Hrun];
        rewrite (iteration_flush saveResult subsPerJobs recJobSubs st w _ _
                   Hlast Hne Hrun).
      * destruct recJobSubs as [r|];
          [destruct (subsPerJobs !! id_job r)|];
          eexists _, _; (split; [reflexivity|]);
          (split; [right; split; [reflexivity|]; eexists; exact Hrun|]);
          intros st' [= <-]; right; reflexivity.
      * eexists _, _. split; [reflexivity|].
        split; [right; split; [reflexivity|]; eexists; exact Hrun|].
        intros st' [=].
  - unfold iteration. rewrite Hlast.
    destruct (decide (recJobSubs ≫= id_recruiter ≠ recJobSubs ≫= id_recruiter));
      [congruence|].
    unfold mbind, M_bind, mret, M_ret, throw.
    destruct recJobSubs as [r|]; cbn [lastRecruiter];
      [destruct (subsPerJobs !! id_job r)|];
      eexists _, _; (split; [reflexivity|]); (split; [left; reflexivity|]);
      intros st' [= <-]; right; reflexivity.
Qed.

(** What every call keeps, the loop keeps, whether it ends or throws. *)
Lemma loop_preserves (I : World num → Prop) (A : option string → Prop) :
  (∀ a T P w, A a → I w → I (computeAndSaveScore saveResult a T P w).1) →
  ∀ l (st : LoopState num) w,
    (truthy (lastRecruiter st) = true → A (lastRecruiter st)) →
    Forall (fun r => A (id_recruiter r)) l →
    I w →
    I (loop saveResult subsPerJobs l st w).1.
Proof.
  intros Hstep. induction l as [|r t IH]; intros st w Hlast Hl Hw.
  - cbn [loop]. unfold mbind at 1. unfold M_bind.
    destruct (iteration_outcome None st w) as (w' & res & -> & Hw' & _).
    assert (I w').
    { destruct Hw' as [->|(Htr & upd & Hrun)]; [assumption|].
      specialize (Hstep (lastRecruiter st) (totalSubmissions st) (points st)
                    w (Hlast Htr) Hw). rewrite Hrun in Hstep. exact Hstep. }
    destruct res; assumption.
  - apply Forall_cons in Hl as [Hr Hl].
    cbn [loop]. unfold mbind at 1. unfold M_bind.
    destruct (iteration_outcome (Some r) st w) as (w' & res & -> & Hw' & Hnext).
    assert (I w').
    { destruct Hw' as [->|(Htr & upd & Hrun)]; [assumption|].
      specialize (Hstep (lastRecruiter st) (totalSubmissions st) (points st)
                    w (Hlast Htr) Hw). rewrite Hrun in Hstep. exact Hstep. }
    destruct res as [st'|e]; [|assumption].
    apply IH; [|assumption|assumption].
    intros Htr'. destruct (Hnext st' eq_refl) as [Heq|Heq]; rewrite Heq in *.
    + auto.
    + exact Hr.
Qed.

(** The calls of the loop are the first flushes of the fold of the
    specification: all of them when the loop ends, the ones up to the first
    [undefined] update otherwise. *)
Lemma loop_calls_prefix l : ∀ (st : LoopState num) w,
  truthy (lastRecruiter st) = true →
  Forall (well_formed subsPerJobs) l →
  ∃ cs,
    calls (loop saveResult subsPerJobs l st w).1 = calls w ++ cs
    ∧ cs `prefix_of` fold_flushes subsPerJobs (lastRecruiter st)
                       (totalSubmissions st) (points st) l.
Proof.
  induction l as [|r t IH]; intros st w Hlast Hwf.
  - cbn [loop fold_flushes]. unfold mbind at 1. unfold M_bind.
    assert (Hne : None ≫= id_recruiter ≠ lastRecruiter st).
    { intros Heq. rewrite <- Heq in Hlast. discriminate. }
    destruct (computeAndSaveScore_logs saveResult w
                (lastRecruiter st) (totalSubmissions st) (points st))
      as (w1 & upd & Hrun & Hcalls).
    rewrite (iteration_flush saveResult subsPerJobs None st w w1 upd
               Hlast Hne Hrun).
    exists [call_of (lastRecruiter st) (totalSubmissions st) (points st)].
    split; [|reflexivity].
    destruct upd; exact Hcalls.
  - apply Forall_cons in Hwf as [[Htr [b Hb]] Hwf].
    assert (Hd : delta_in subsPerJobs r = delta b r)
      by (unfold delta_in; rewrite Hb; reflexivity).
    cbn [loop fold_flushes]. unfold mbind at 1. unfold M_bind. rewrite Hd.
    destruct (decide (id_recruiter r = lastRecruiter st)) as [Heq|Hne].
    + rewrite (iteration_same saveResult subsPerJobs r b st w Hlast Heq Hb).
      apply (IH {| lastRecruiter := lastRecruiter st;
                   totalSubmissions := nadd (totalSubmissions st) (ofZ (total r));
                   points := nadd (points st) (delta b r);
                   results := results st |} w Hlast Hwf).
    + destruct (computeAndSaveScore_logs saveResult w
                  (lastRecruiter st) (totalSubmissions st) (points st))
        as (w1 & upd & Hrun & Hcalls).
      rewrite (iteration_flush saveResult subsPerJobs (Some r) st w w1 upd
                 Hlast Hne Hrun), Hb.
      destruct upd as [o|].
      * destruct (IH {| lastRecruiter := id_recruiter r;
                        totalSubmissions := nadd (ofZ 0) (ofZ (total r));
                        points := nadd (ofZ 0) (delta b r);
                        results := merge_results (results st) o |} w1 Htr Hwf)
          as (cs & Hcs & Hpre).
        exists (call_of (lastRecruiter st) (totalSubmissions st) (points st) :: cs).
        split.
        -- rewrite Hcs, Hcalls, <- app_assoc. reflexivity.
        -- apply prefix_cons. exact Hpre.
      * exists [call_of (lastRecruiter st) (totalSubmissions st) (points st)].
        split; [exact Hcalls|].
        apply prefix_cons, prefix_nil.
Qed.

End LoopInvariants.

(** X11: the run writes only to the budgets of the recruiters of the cursor.
    It creates no [Preference] document, and the budget of a recruiter with no
    submission counted in the window is left as it was, whether the run ends
    or throws. *)
Theorem run_touches_only_cursor_recruiters {num : Type} `{Number num}
    (saveResult : string → option (gmap string Z)) (from to : Z)
    (subs : list Submission) (w : World num) (k : string) :
  Some k ∉ map id_recruiter (retrieveRecruitersSubmissions from to false subs) →
  dom (maxSlots (computeRecruitersScore saveResult from to subs w).1)
  = dom (maxSlots w)
  ∧ maxSlots (computeRecruitersScore saveResult from to subs w).1 !! k
    = maxSlots w !! k.
Proof.
  intros Hk. unfold computeRecruitersScore. split.
  - apply (loop_preserves saveResult _
             (fun w' => dom (maxSlots w') = dom (maxSlots w)) (fun _ => True)).
    + intros a T P w0 _ Hw0.
      destruct (computeAndSaveScore_cases saveResult w0 a T P)
        as [(id & m & o & -> & Hm & Ho & Hrun)|Hrun]; rewrite Hrun;
        cbn [fst maxSlots]; [|assumption].
      rewrite dom_insert_lookup_L by (rewrite Hm; eauto). assumption.
    + auto.
    + apply Forall_forall. auto.
    + reflexivity.
  - apply (loop_preserves saveResult _
             (fun w' => maxSlots w' !! k = maxSlots w !! k)
             (fun a => a ≠ Some k)).
    + intros a T P w0 Ha Hw0.
      destruct (computeAndSaveScore_cases saveResult w0 a T P)
        as [(id & m & o & -> & Hm & Ho & Hrun)|Hrun]; rewrite Hrun;
        cbn [fst maxSlots]; [|assumption].
      rewrite lookup_insert_ne by congruence. assumption.
    + discriminate.
    + apply Forall_forall. intros r Hr Heq. apply Hk.
      rewrite <- Heq. apply list_elem_of_fmap. eauto.
    + reflexivity.
Qed.

Lemma run_touches_only_witness :
  dom (maxSlots (computeRecruitersScore Sample.save_ok 0 10
                   [Sample.submission "j" "a" true] Sample.budgets_abc).1)
  = dom (maxSlots Sample.budgets_abc)
  ∧ maxSlots (computeRecruitersScore Sample.save_ok 0 10
                [Sample.submission "j" "a" true] Sample.budgets_abc).1 !! "c"
    = maxSlots Sample.budgets_abc !! "c".
Proof.
  apply (run_touches_only_cursor_recruiters Sample.save_ok 0 10
           [Sample.submission "j" "a" true] Sample.budgets_abc "c").
  vm_compute. intros Hin. apply list_elem_of_singleton in Hin. discriminate.
Defined.

(** X12: the floor is an invariant of the whole run. When every budget is at
    least 1 before the run, every budget is at least 1 after it, whether the
    run ends or throws. *)
Theorem run_keeps_budgets_at_least_one
    (saveResult : string → option (gmap string Z)) (from to : Z)
    (subs : list Submission) (w : World R) :
  (∀ k m, maxSlots w !! k = Some m → (1 <= m)%R) →
  ∀ k m,
    maxSlots (computeRecruitersScore saveResult from to subs w).1 !! k = Some m →
    (1 <= m)%R.
Proof.
  intros Hw. unfold computeRecruitersScore.
  apply (loop_preserves saveResult _
           (fun w' => ∀ k m, maxSlots w' !! k = Some m → (1 <= m)%R)
           (fun _ => True)).
  - intros a T P w0 _ Hw0.
    destruct (computeAndSaveScore_cases saveResult w0 a T P)
      as [(id & c & o & -> & Hm & Ho & Hrun)|Hrun]; rewrite Hrun;
      cbn [fst maxSlots]; [|assumption].
    intros k m. destruct (decide (id = k)) as [->|Hne].
    + rewrite lookup_insert_eq. intros [= <-]. apply Rmax_l.
    + rewrite lookup_insert_ne by assumption. apply Hw0.
  - auto.
  - apply Forall_forall. auto.
  - assumption.
Qed.

Lemma run_keeps_budgets_witness :
  ∃ m,
    maxSlots (computeRecruitersScore Sample.save_ok 0 10 Sample.three_agents
                Sample.budgets_R).1 !! "a" = Some m
    ∧ (1 <= m)%R.
Proof.
  eexists. split; [reflexivity|].
  apply (run_keeps_budgets_at_least_one Sample.save_ok 0 10 Sample.three_agents
           Sample.budgets_R) with (k := "a"); [|reflexivity].
  intros k m. unfold Sample.budgets_R. cbn [maxSlots].
  destruct (decide ("a" = k)) as [<-|Hne].
  - rewrite lookup_insert_eq. intros [= <-]. lra.
  - rewrite lookup_insert_ne, lookup_empty by assumption. discriminate.
Defined.

(** ** At most one call per recruiter *)

Lemma cursor_recruiters_from_submissions from to subs r :
  r ∈ retrieveRecruitersSubmissions from to false subs →
  ∃ s, s ∈ subs ∧ id_recruiter r = Some (recruiter s).
Proof.
  intros Hr. rewrite retrieve_Permutation in Hr.
  assert (Hkey : group_key r ∈ map group_key
                   (group_stage false (filtered from to subs))).
  { apply list_elem_of_fmap. eauto. }
  apply (proj2 (group_stage_keys false _)) in Hkey.
  apply list_elem_of_fmap in Hkey as (d & Hd & Hin).
  unfold filtered in Hin. apply list_elem_of_fmap in Hin as (s & -> & Hs).
  apply list_elem_of_In, List.filter_In in Hs as [Hs _].
  apply List.filter_In in Hs as [Hs _].
  exists s. split; [apply list_elem_of_In; assumption|].
  unfold group_key in Hd. injection Hd as _ Hrec. exact Hrec.
Qed.

Lemma prefix_map {A B} (f : A → B) (l1 l2 : list A) :
  l1 `prefix_of` l2 → map f l1 `prefix_of` map f l2.
Proof. intros [k ->]. exists (map f k). apply map_app. Qed.

Lemma map_call_recruiter_call_for {num : Type} `{Number num}
    (subsPerJobs : gmap string (JobStat num)) l ids :
  map call_recruiter (map (call_for subsPerJobs l) ids) = ids.
Proof.
  induction ids as [|a ids IH]; [reflexivity|]. simpl. rewrite IH. reflexivity.
Qed.

(** The calls of a run are the first flushes of the fold over the cursor. *)
Lemma run_calls_prefix {num : Type} `{Number num}
    (saveResult : string → option (gmap string Z)) (from to : Z)
    (subs : list Submission) (w : World num) :
  Forall (fun s => recruiter s ≠ "") subs →
  ∃ cs,
    calls (computeRecruitersScore saveResult from to subs w).1 = calls w ++ cs
    ∧ cs `prefix_of`
        flushes (subsPerJobs_of (retrieveRecruitersSubmissions from to true subs))
          (retrieveRecruitersSubmissions from to false subs).
Proof.
  intros Hids. unfold computeRecruitersScore.
  set (cursor := retrieveRecruitersSubmissions from to false subs).
  set (subsPerJobs :=
         subsPerJobs_of (retrieveRecruitersSubmissions from to true subs)).
  assert (Hwf : Forall (well_formed subsPerJobs) cursor).
  { rewrite Forall_forall. intros r Hr. split.
    - destruct (cursor_recruiters_from_submissions from to subs r Hr)
        as (s & Hs & ->).
      apply truthy_Some. rewrite Forall_forall in Hids. auto.
    - apply cursor_jobs_have_baseline. exact Hr. }
  destruct cursor as [|r t].
  - exists []. split; [simpl; rewrite app_nil_r; reflexivity | reflexivity].
  - apply Forall_cons in Hwf as [[Htr [b Hb]] Hwf].
    assert (Hd : delta_in subsPerJobs r = delta b r)
      by (unfold delta_in; rewrite Hb; reflexivity).
    cbn [loop flushes]. unfold mbind at 1. unfold M_bind.
    rewrite (iteration_first saveResult subsPerJobs r b initial w eq_refl Hb).
    rewrite Hd.
    apply (loop_calls_prefix saveResult subsPerJobs t
             {| lastRecruiter := id_recruiter r;
                totalSubmissions := nadd (ofZ 0) (ofZ (total r));
                points := nadd (ofZ 0) (delta b r);
                results := ∅ |} w Htr Hwf).
Qed.

(** X13: no recruiter is scored twice. When the recruiter ids are not empty,
    the calls of a run are made for recruiters of the cursor, each at most
    once and in the order of the cursor, whether the run ends or throws. *)
Theorem run_calls_each_recruiter_at_most_once {num : Type} `{Number num}
    (saveResult : string → option (gmap string Z)) (from to : Z)
    (subs : list Submission) (w : World num) :
  Forall (fun s => recruiter s ≠ "") subs →
  ∃ cs,
    calls (computeRecruitersScore saveResult from to subs w).1 = calls w ++ cs
    ∧ map call_recruiter cs
      `prefix_of` distinct (map id_recruiter
                              (retrieveRecruitersSubmissions from to false subs))
    ∧ NoDup (map call_recruiter cs).
Proof.
  intros Hids.
  destruct (run_calls_prefix saveResult from to subs w Hids) as (cs & Hcs & Hpre).
  exists cs. split; [exact Hcs|].
  set (cursor := retrieveRecruitersSubmissions from to false subs) in *.
  set (subsPerJobs :=
         subsPerJobs_of (retrieveRecruitersSubmissions from to true subs)) in *.
  assert (Hsorted : sorted_by_recruiter cursor) by apply sort_stage_sorted.
  rewrite (flushes_sorted subsPerJobs cursor Hsorted) in Hpre.
  assert (Hpre' : map call_recruiter cs
                  `prefix_of` distinct (map id_recruiter cursor)).
  { rewrite <- (map_call_recruiter_call_for subsPerJobs cursor
                  (distinct (map id_recruiter cursor))).
    apply prefix_map. exact Hpre. }
  split; [exact Hpre'|].
  destruct Hpre' as [rest Hrest].
  pose proof (NoDup_distinct (map id_recruiter cursor)) as Hnd.
  rewrite Hrest in Hnd. apply NoDup_app in Hnd as [Hnd _]. exact Hnd.
Qed.

(** The witness is a run that throws: recruiter ["b"] has no budget. *)
Lemma run_calls_at_most_once_witness :
  ∃ cs,
    calls (computeRecruitersScore Sample.save_ok 0 10 Sample.three_agents
             Sample.budgets_ac).1 = calls Sample.budgets_ac ++ cs
    ∧ map call_recruiter cs
      `prefix_of` distinct (map id_recruiter
                              (retrieveRecruitersSubmissions 0 10 false
                                 Sample.three_agents))
    ∧ NoDup (map call_recruiter cs).
Proof.
  apply (run_calls_each_recruiter_at_most_once Sample.save_ok 0 10
           Sample.three_agents Sample.budgets_ac).
  repeat constructor; discriminate.
Defined.

(** X14: the score is never computed at volume 0. In exact arithmetic, when
    the recruiter ids are not empty, every call of a run carries a volume of
    at least one submission. *)
Theorem run_never_scores_zero_volume
    (saveResult : string → option (gmap string Z)) (from to : Z)
    (subs : list Submission) (w : World R) :
  Forall (fun s => recruiter s ≠ "") subs →
  ∃ cs,
    calls (computeRecruitersScore saveResult from to subs w).1 = calls w ++ cs
    ∧ Forall (fun c => (1 <= call_totalSubmissions c)%R) cs.
Proof.
  intros Hids.
  destruct (run_calls_prefix saveResult from to subs w Hids) as (cs & Hcs & Hpre).
  exists cs. split; [exact Hcs|].
  destruct Hpre as [rest Hrest].
  pose proof (cursor_volume_positive from to subs
                (subsPerJobs_of (retrieveRecruitersSubmissions from to true subs)))
    as Hall.
  rewrite Hrest in Hall. apply Forall_app in Hall as [Hall _]. exact Hall.
Qed.

Lemma run_never_scores_zero_volume_witness :
  ∃ cs,
    calls (computeRecruitersScore Sample.save_ok 0 10 Sample.three_agents
             Sample.budgets_R).1 = calls Sample.budgets_R ++ cs
    ∧ Forall (fun c => (1 <= call_totalSubmissions c)%R) cs.
Proof.
  apply (run_never_scores_zero_volume Sample.save_ok 0 10 Sample.three_agents
           Sample.budgets_R).
  repeat constructor; discriminate.
Defined.

(** ** The net points of a run add up to zero *)

Section ZeroSum.

Local Open Scope R_scope.

Lemma Rsum_fold_left (l : list R) : fold_left Rplus l 0 = Rsum l.
Proof.
  induction l as [|x l IH]; [reflexivity|].
  cbn [fold_left]. rewrite fold_left_Rplus_acc, IH. simpl. lra.
Qed.

Lemma Rsum_zero {K} (J : list K) : Rsum (map (fun _ => 0) J) = 0.
Proof. induction J as [|j J IH]; simpl; [reflexivity|]. rewrite IH. lra. Qed.

Lemma Rsum_plus {K} (a b : K → R) (J : list K) :
  Rsum (map (fun j => a j + b j) J) = Rsum (map a J) + Rsum (map b J).
Proof. induction J as [|j J IH]; simpl; [lra|]. rewrite IH. lra. Qed.

Lemma Rsum_indicator {K} `{EqDecision K} (x : K) (c : R) (J : list K) :
  NoDup J → x ∈ J →
  Rsum (map (fun j => if decide (x = j) then c else 0) J) = c.
Proof.
  induction 1 as [|j J Hj Hnd IH]; intros Hin.
  - apply elem_of_nil in Hin. contradiction.
  - simpl. destruct (decide (x = j)) as [->|Hne].
    + assert (Hrest : Rsum (map (fun j0 => if decide (j = j0) then c else 0) J) = 0).
      { clear -Hj. induction J as [|k J IH]; [reflexivity|].
        rewrite not_elem_of_cons in Hj. destruct Hj as [Hne Hj]. simpl.
        destruct (decide (j = k)); [contradiction|]. rewrite (IH Hj). lra. }
      rewrite Hrest. lra.
    + apply elem_of_cons in Hin as [Heq|Hin]; [contradiction|].
      rewrite (IH Hin). lra.
Qed.

(** A sum over the documents is the sum, over the keys, of the sums over the
    documents of each key. *)
Lemma Rsum_by_key {K} `{EqDecision K} (key : Grouped → K) (g : Grouped → R)
    (J : list K) (l : list Grouped) :
  NoDup J →
  (∀ r, r ∈ l → key r ∈ J) →
  Rsum (map g l)
  = Rsum (map (fun j => Rsum (map g (filter (fun r => key r = j) l))) J).
Proof.
  intros Hnd. induction l as [|r t IH]; intros Hcover.
  - simpl. rewrite Rsum_zero. reflexivity.
  - assert (Hstep : ∀ j,
      Rsum (map g (filter (fun r0 => key r0 = j) (r :: t)))
      = (if decide (key r = j) then g r else 0)
        + Rsum (map g (filter (fun r0 => key r0 = j) t))).
    { intros j. rewrite filter_cons.
      destruct (decide (key r = j)); simpl; lra. }
    rewrite (map_ext _ _ Hstep), Rsum_plus.
    rewrite Rsum_indicator; [|assumption|apply Hcover; left].
    rewrite <- IH; [reflexivity|].
    intros r0 Hr0. apply Hcover. right. assumption.
Qed.

Lemma job_deltas_cancel from to subs j (baseline : JobStat R) :
  subsPerJobs_of (retrieveRecruitersSubmissions from to true subs) !! j
  = Some baseline →
  Rsum (map (delta baseline)
          (filter (fun r => id_job r = j)
             (retrieveRecruitersSubmissions from to false subs))) = 0.
Proof.
  intros Hb. rewrite <- Rsum_fold_left.
  change (fold_left Rplus ?l 0) with (nsum l).
  rewrite nsum_delta. unfold retrieveRecruitersSubmissions in *.
  rewrite !sort_stage_over.
  destruct (group_stage_sums j false (filtered from to subs)) as [Ht Hp].
  destruct (group_stage_sums j true (filtered from to subs)) as [Ht' Hp'].
  destruct (subsPerJobs_of_lookup _ _ _ (group_stage_global_keys _) Hb)
    as (Hbt & Hbp & Hr).
  assert (Hpos : (1 <= over_job total j
                        (group_stage true (filtered from to subs)))%Z).
  { apply over_job_total_positive; [apply group_stage_positive|].
    apply (subsPerJobs_of_dom (num := R)). rewrite Hb. eauto. }
  rewrite Hr, Hbt, Hbp, Ht, Hp, Ht', Hp'. rewrite Ht' in Hpos.
  cbn [ndiv ofZ RNumber].
  assert (IZR (docs_total j (filtered from to subs)) <> 0).
  { apply not_0_IZR. lia. }
  field. assumption.
Qed.

Lemma cursor_deltas_cancel from to subs :
  Rsum (map (delta_in
               (subsPerJobs_of (retrieveRecruitersSubmissions from to true subs)))
          (retrieveRecruitersSubmissions from to false subs)) = 0.
Proof.
  set (base := subsPerJobs_of (num := R)
                 (retrieveRecruitersSubmissions from to true subs)).
  set (cursor := retrieveRecruitersSubmissions from to false subs).
  rewrite (Rsum_by_key id_job (delta_in base)
             (map id_job (retrieveRecruitersSubmissions from to true subs))
             cursor).
  - rewrite <- (Rsum_zero (map id_job
                             (retrieveRecruitersSubmissions from to true subs))).
    f_equal. apply map_ext_in. intros j Hj.
    apply list_elem_of_In in Hj.
    apply (subsPerJobs_of_dom (num := R)) in Hj as [b Hb]. fold base in Hb.
    rewrite <- (job_deltas_cancel from to subs j b Hb). fold cursor.
    f_equal. apply map_ext_in. intros r Hr.
    apply list_elem_of_In, list_elem_of_filter in Hr as [Hjob _].
    unfold delta_in. rewrite Hjob, Hb. reflexivity.
  - apply group_stage_global_keys.
  - intros r Hr. apply (subsPerJobs_of_dom (num := R)).
    apply cursor_jobs_have_baseline. exact Hr.
Qed.

Lemma points_of_Rsum (base : gmap string (JobStat R)) a l :
  points_of base a l 0
  = Rsum (map (delta_in base) (filter (fun r => id_recruiter r = a) l)).
Proof.
  unfold points_of. rewrite <- Rsum_fold_left.
  generalize (filter (fun r => id_recruiter r = a) l). intros k.
  enough (Hgen : ∀ acc,
    fold_left (fun acc r => nadd acc (delta_in base r)) k acc
    = fold_left Rplus (map (delta_in base) k) acc) by apply Hgen.
  induction k as [|r k IH]; intros acc; [reflexivity|].
  simpl. apply IH.
Qed.

End ZeroSum.

(** X15: scoring is relative. In exact arithmetic the deltas of all the
    documents of the cursor add up to zero, and so do the net points of all
    the flushes of the fold: what one recruiter gains against the baselines,
    the others lose. *)
Theorem net_points_add_up_to_zero (from to : Z) (subs : list Submission) :
  let subsPerJobs :=
    subsPerJobs_of (retrieveRecruitersSubmissions from to true subs) in
  let cursor := retrieveRecruitersSubmissions from to false subs in
  nsum (map (delta_in subsPerJobs) cursor) = 0%R
  ∧ nsum (map call_points (flushes subsPerJobs cursor)) = 0%R.
Proof.
  intros subsPerJobs cursor. unfold nsum. cbn [nadd ofZ RNumber].
  rewrite !Rsum_fold_left. split; [apply cursor_deltas_cancel|].
  rewrite (flushes_sorted subsPerJobs cursor (sort_stage_sorted _)).
  rewrite <- (cursor_deltas_cancel from to subs). fold subsPerJobs cursor.
  rewrite (Rsum_by_key id_recruiter (delta_in subsPerJobs)
             (distinct (map id_recruiter cursor)) cursor).
  - rewrite map_map. f_equal. apply map_ext. intros a.
    unfold call_for, call_of. cbn [call_points]. apply points_of_Rsum.
  - apply NoDup_distinct.
  - intros r Hr. apply elem_of_distinct, list_elem_of_fmap. eauto.
Qed.

(** Scenario D on doubles: the two flushes carry net points 3 and -3. *)
Example scenario_D_points_binary64 :
  map call_points
    (flushes (num := PrimFloat.float)
       (subsPerJobs_of (retrieveRecruitersSubmissions 0 10 true Sample.scenario_D))
       (retrieveRecruitersSubmissions 0 10 false Sample.scenario_D))
  = [ofZ 3; ofZ (-3)].
Proof. vm_compute. reflexivity. Qed.

(** * The aggregation and the collection *)

Lemma counted_submissions_Permutation from to (subs subs' : list Submission) :
  subs ≡ₚ subs' →
  List.filter (counted from to) subs ≡ₚ List.filter (counted from to) subs'.
Proof.
  induction 1 as [|s l l' Hl IH|s s' l|l l' l'' H1 IH1 H2 IH2]; simpl.
  - reflexivity.
  - destruct (counted from to s); [rewrite IH|]; auto.
  - destruct (counted from to s), (counted from to s'); try reflexivity.
    apply Permutation_swap.
  - etransitivity; eassumption.
Qed.

Lemma docs_sums_Permutation j (docs docs' : list Projected) :
  docs ≡ₚ docs' →
  docs_total j docs = docs_total j docs' ∧ docs_pass j docs = docs_pass j docs'.
Proof.
  intros Hp. unfold docs_total, docs_pass.
  split; apply sumZ_Permutation, Permutation_map, Hp.
Qed.

(** X16: the cursor has a document for a recruiter exactly when one of the
    counted submissions is theirs: a recruiter with nothing counted in the
    window is absent from the cursor. *)
Theorem cursor_recruiters_are_those_counted (from to : Z)
    (subs : list Submission) (a : string) :
  Some a ∈ map id_recruiter (retrieveRecruitersSubmissions from to false subs)
  ↔ ∃ s, s ∈ subs ∧ counted from to s = true ∧ recruiter s = a.
Proof.
  rewrite (Permutation_map id_recruiter (retrieve_Permutation from to false subs)).
  destruct (group_stage_keys false (filtered from to subs)) as [_ Hkeys].
  rewrite filtered_as_counted in *.
  split.
  - intros Hin. apply list_elem_of_fmap in Hin as (g & Hg & Hin).
    assert (Hkey : group_key g ∈ map group_key
              (group_stage false
                 (map (project from to) (List.filter (counted from to) subs))))
      by (apply list_elem_of_fmap; eauto).
    apply Hkeys in Hkey. apply list_elem_of_fmap in Hkey as (d & Hd & Hdin).
    apply list_elem_of_fmap in Hdin as (s & -> & Hs).
    apply list_elem_of_In, List.filter_In in Hs as [Hs Hc].
    exists s. split; [apply list_elem_of_In; assumption|]. split; [assumption|].
    unfold group_key in Hd. injection Hd as _ Hrec. simpl in Hrec. congruence.
  - intros (s & Hs & Hc & <-).
    assert (Hkey : (job s, Some (recruiter s)) ∈ map group_key
              (group_stage false
                 (map (project from to) (List.filter (counted from to) subs)))).
    { apply Hkeys. apply list_elem_of_fmap. exists (project from to s).
      split; [reflexivity|]. apply list_elem_of_fmap. exists s.
      split; [reflexivity|]. apply list_elem_of_In, List.filter_In.
      split; [apply list_elem_of_In; assumption | assumption]. }
    apply list_elem_of_fmap in Hkey as (g & Hg & Hin).
    apply list_elem_of_fmap. exists g. split; [|assumption].
    unfold group_key in Hg. injection Hg as _ Hrec. congruence.
Qed.

Section BaselineOrder.

Context {num : Type} `{Number num}.

(** The entry of a job in [subsPerJobs], spelled out on the counted
    submissions. *)
Lemma subsPerJobs_of_explicit from to subs j :
  subsPerJobs_of (num := num) (retrieveRecruitersSubmissions from to true subs) !! j
  = if decide (j ∈ map p_job (filtered from to subs))
    then Some {| job_total := docs_total j (filtered from to subs);
                 job_pass := docs_pass j (filtered from to subs);
                 approvalRatio :=
                   ndiv (ofZ (docs_pass j (filtered from to subs)))
                        (ofZ (docs_total j (filtered from to subs))) |}
    else None.
Proof.
  unfold retrieveRecruitersSubmissions.
  destruct (subsPerJobs_of (num := num)
              (group_stage true (filtered from to subs)) !! j) as [b|] eqn:Hb.
  - assert (Hin : j ∈ map p_job (filtered from to subs)).
    { apply (group_stage_jobs true), (subsPerJobs_of_dom (num := num)).
      rewrite Hb. eauto. }
    destruct (decide (j ∈ map p_job (filtered from to subs))); [|contradiction].
    destruct (subsPerJobs_of_lookup _ _ _ (group_stage_global_keys _) Hb)
      as (Ht & Hp & Hr).
    destruct (group_stage_sums j true (filtered from to subs)) as [Ht' Hp'].
    rewrite Ht' in Ht. rewrite Hp' in Hp.
    destruct b as [bt bp br]. simpl in *. subst. reflexivity.
  - destruct (decide (j ∈ map p_job (filtered from to subs))) as [Hin|];
      [|reflexivity].
    apply (group_stage_jobs true), (subsPerJobs_of_dom (num := num)) in Hin.
    rewrite Hb in Hin. destruct Hin. discriminate.
Qed.

End BaselineOrder.

(** X17: the baseline does not depend on the order in which the collection
    holds the submissions: two collections with the same submissions give the
    same [subsPerJobs]. *)
Theorem baseline_ignores_collection_order {num : Type} `{Number num}
    (from to : Z) (subs subs' : list Submission) :
  subs ≡ₚ subs' →
  subsPerJobs_of (num := num) (retrieveRecruitersSubmissions from to true subs)
  = subsPerJobs_of (retrieveRecruitersSubmissions from to true subs').
Proof.
  intros Hperm. apply map_eq. intros j.
  rewrite !subsPerJobs_of_explicit.
  assert (Hdocs : filtered from to subs ≡ₚ filtered from to subs').
  { rewrite !filtered_as_counted.
    apply Permutation_map, counted_submissions_Permutation, Hperm. }
  destruct (docs_sums_Permutation j _ _ Hdocs) as [-> ->].
  destruct (decide (j ∈ map p_job (filtered from to subs))) as [Hin|Hnot];
    destruct (decide (j ∈ map p_job (filtered from to subs'))) as [Hin'|Hnot'];
    try reflexivity; exfalso.
  - apply Hnot'. rewrite <- (Permutation_map p_job Hdocs). exact Hin.
  - apply Hnot. rewrite (Permutation_map p_job Hdocs). exact Hin'.
Qed.

Lemma baseline_order_witness :
  subsPerJobs_of (num := PrimFloat.float)
    (retrieveRecruitersSubmissions 0 10 true
       [Sample.submission "j" "a" true; Sample.submission "k" "b" false])
  = subsPerJobs_of
      (retrieveRecruitersSubmissions 0 10 true
         [Sample.submission "k" "b" false; Sample.submission "j" "a" true]).
Proof.
  apply (baseline_ignores_collection_order 0 10
           [Sample.submission "j" "a" true; Sample.submission "k" "b" false]
           [Sample.submission "k" "b" false; Sample.submission "j" "a" true]).
  apply Permutation_swap.
Defined.

(** The hypothesis of [run_when_updates_resolve] holds for the three recruiters
    of the sample: each has a budget, and every save resolves. *)
Lemma run_when_updates_resolve_witness :
  let cursor := retrieveRecruitersSubmissions 0 10 false Sample.three_agents in
  let subsPerJobs :=
    subsPerJobs_of (num := PrimFloat.float)
      (retrieveRecruitersSubmissions 0 10 true Sample.three_agents) in
  let expected :=
    map (call_for subsPerJobs cursor) (distinct (map id_recruiter cursor)) in
  ∃ w',
    computeRecruitersScore Sample.save_ok 0 10 Sample.three_agents
      Sample.budgets_abc
    = (w', Normal (returned_results (outcomes Sample.save_ok expected)))
    ∧ calls w' = calls Sample.budgets_abc ++ expected
    ∧ length expected
      = size (list_to_set (map id_recruiter cursor) : gset (option string)).
Proof.
  apply (run_when_updates_resolve Sample.save_ok 0 10 Sample.three_agents
           Sample.budgets_abc).
  intros a Ha.
  change (Some a ∈ [Some "a"; Some "b"; Some "c"]) in Ha.
  rewrite !elem_of_cons, elem_of_nil in Ha.
  destruct Ha as [[= ->]|[[= ->]|[[= ->]|[]]]];
    (split; [discriminate|]; split; eexists; reflexivity).
Defined.
